(** * PremiumCoffee: the catalog server, embedded and verified

    The development follows the server's source: the Google Sheets
    reader and its row normalisation ([fetchProductsFromSheet]), the
    product cache ([getProducts]), the image listing ([GET /images]),
    the Drive image proxy ([GET /img/:id]), and the folder watcher with
    its client notification ([fs.watch] callback and [notifyClients]).

    Conventions of the embedding:
    - a JavaScript string is the list of its UTF-16 code units;
    - a JavaScript number is [NaN], an infinity, or a finite value kept
      as an exact rational (the rounding of a decimal literal to the
      nearest binary64 value is not modelled, and neither is the sign
      of zero); the one product of two numbers in the code, the random
      price of the set-up script, is rounded as binary64 rounds it
      ([Binary64]);
    - asynchronous functions are run to completion: a rejected promise
      is a thrown exception, modelled by the [Throw] outcome;
    - what the outside world answers (the clock, the Sheets API, the
      file system, the upstream HTTP server, a socket's [send]) is an
      explicit argument of the function that asks for it. *)

From Stdlib Require Import String Ascii Bool Arith NArith ZArith QArith Lia List.
From Stdlib Require Qcanon Qpower Qround.
From Stdlib Require Import Lqa.
Import ListNotations.
Local Open Scope list_scope.

Set Implicit Arguments.

(* ===================================================================== *)
(** * JavaScript values *)
(* ===================================================================== *)

Module Js.

(** Strings: sequences of UTF-16 code units. *)
Definition str := list N.

(** The code units of an ASCII literal. *)
Definition lit (s : string) : str := map N_of_ascii (list_ascii_of_string s).

Definition str_eqb (a b : str) : bool :=
  if list_eq_dec N.eq_dec a b then true else false.

(** Numbers. *)
Inductive num : Type :=
| NaN
| Inf (negative : bool)
| Fin (q : Q).

(** ToBoolean on strings and numbers. *)
Definition truthy_str (s : str) : bool :=
  match s with [] => false | _ :: _ => true end.

Definition truthy_num (n : num) : bool :=
  match n with
  | NaN => false
  | Inf _ => true
  | Fin q => negb (Qeq_bool q 0)
  end.

(** [a < b] on numbers; any comparison with [NaN] is false. *)
Definition lt (a b : num) : bool :=
  match a, b with
  | NaN, _ | _, NaN => false
  | Inf true, Inf true => false
  | Inf true, _ => true
  | _, Inf true => false
  | Inf false, _ => false
  | _, Inf false => true
  | Fin x, Fin y => negb (Qle_bool y x)
  end.

(** WhiteSpace and LineTerminator code units, as [String.prototype.trim]
    and [parseFloat] strip them. *)
Definition isWhiteSpace (c : N) : bool :=
  ((9 <=? c) && (c <=? 13) || (c =? 32) || (c =? 160) || (c =? 5760)
   || (8192 <=? c) && (c <=? 8202) || (c =? 8232) || (c =? 8233)
   || (c =? 8239) || (c =? 8287) || (c =? 12288) || (c =? 65279))%N.

Fixpoint trimStart (s : str) : str :=
  match s with
  | [] => []
  | c :: r => if isWhiteSpace c then trimStart r else s
  end.

Definition trimEnd (s : str) : str := rev (trimStart (rev s)).

Definition trim (s : str) : str := trimEnd (trimStart s).

(** [\d]: the ASCII digits. *)
Definition isDigit (c : N) : bool := ((48 <=? c) && (c <=? 57))%N.

(** [\w]: ASCII letters, digits and the underscore. *)
Definition isWord (c : N) : bool :=
  (isDigit c || (65 <=? c) && (c <=? 90) || (97 <=? c) && (c <=? 122)
   || (c =? 95))%N.

(** [s.replace(a, b)] with one-unit string arguments: only the first
    occurrence is replaced. *)
Fixpoint replaceFirst (a b : N) (s : str) : str :=
  match s with
  | [] => []
  | c :: r => if (c =? a)%N then b :: r else c :: replaceFirst a b r
  end.

(** [s.replace(/a/g, b)], spelled out for comparison. *)
Definition replaceEvery (a b : N) (s : str) : str :=
  map (fun c => if (c =? a)%N then b else c) s.

Fixpoint startsWith (p s : str) : bool :=
  match p, s with
  | [], _ => true
  | _ :: _, [] => false
  | x :: p', y :: s' => (x =? y)%N && startsWith p' s'
  end.

(** ** parseFloat *)

(** The longest run of decimal digits at the head, and what follows. *)
Fixpoint spanDigits (s : str) : list N * str :=
  match s with
  | [] => ([], [])
  | c :: r =>
      if isDigit c then let (ds, t) := spanDigits r in (c :: ds, t)
      else ([], s)
  end.

Definition digitsValue (ds : list N) : N :=
  fold_left (fun acc d => 10 * acc + (d - 48))%N ds 0%N.

(** Value of the longest ExponentPart at the head; 0 when there is
    none (an indicator not followed by digits is not consumed). *)
Definition exponentPart (s : str) : Z :=
  match s with
  | c :: r =>
      if ((c =? 101) || (c =? 69))%N then
        match r with
        | x :: r' =>
            if (x =? 43)%N then
              match spanDigits r' with
              | ([], _) => 0%Z
              | (ds, _) => Z.of_N (digitsValue ds)
              end
            else if (x =? 45)%N then
              match spanDigits r' with
              | ([], _) => 0%Z
              | (ds, _) => (- Z.of_N (digitsValue ds))%Z
              end
            else
              match spanDigits r with
              | ([], _) => 0%Z
              | (ds, _) => Z.of_N (digitsValue ds)
              end
        | [] => 0%Z
        end
      else 0%Z
  | [] => 0%Z
  end.

(** Mathematical value of [ip.fp] times ten to the [e]. *)
Definition decimal (ip fp : list N) (e : Z) : Q :=
  Qred (inject_Z (Z.of_N (digitsValue (ip ++ fp)))
        * Qpower (10 # 1) (e - Z.of_nat (List.length fp))).

(** Digits after the decimal point and an optional exponent. *)
Definition fractionAndExponent (ip : list N) (s : str) : option Q :=
  let (fp, t) := spanDigits s in
  match ip, fp with
  | [], [] => None
  | _, _ => Some (decimal ip fp (exponentPart t))
  end.

(** Longest prefix that is a StrUnsignedDecimalLiteral. *)
Definition strUnsignedDecimalLiteral (s : str) : num :=
  if startsWith (lit "Infinity") s then Inf false
  else
    let (ip, r) := spanDigits s in
    match r with
    | c :: r' =>
        if (c =? 46)%N then
          match fractionAndExponent ip r' with
          | Some q => Fin q
          | None => NaN
          end
        else
          match ip with
          | [] => NaN
          | _ :: _ => Fin (decimal ip [] (exponentPart r))
          end
    | [] =>
        match ip with
        | [] => NaN
        | _ :: _ => Fin (decimal ip [] 0)
        end
    end.

Definition neg (n : num) : num :=
  match n with
  | NaN => NaN
  | Inf b => Inf (negb b)
  | Fin q => Fin (Qred (- q))
  end.

Definition parseFloat (s : str) : num :=
  match trimStart s with
  | c :: r =>
      if (c =? 43)%N then strUnsignedDecimalLiteral r
      else if (c =? 45)%N then neg (strUnsignedDecimalLiteral r)
      else strUnsignedDecimalLiteral (c :: r)
  | [] => NaN
  end.

(** A number that is not [NaN] and not below zero. *)
Definition nonNegative (n : num) : Prop :=
  match n with
  | NaN => False
  | Inf negative => negative = false
  | Fin q => 0 <= q
  end.

(** A number below zero, and a number above zero. *)
Definition belowZero (n : num) : Prop :=
  match n with
  | NaN => False
  | Inf minus => minus = true
  | Fin q => q < 0
  end.

Definition aboveZero (n : num) : Prop :=
  match n with
  | NaN => False
  | Inf minus => minus = false
  | Fin q => 0 < q
  end.

(** [v || ""] on a value that is a string or absent. *)
Definition orEmpty (o : option str) : str :=
  match o with Some s => s | None => [] end.

(** Two inputs that [parseFloat] cannot tell apart.

    [sim p a b]: [a] and [b] are equal unit by unit, except that past
    a period ([p] set) a comma of [a] may face a period in [b]. *)
Inductive sim : bool -> str -> str -> Prop :=
| sim_nil p : sim p [] []
| sim_same p c a b :
    sim (p || (c =? 46)%N) a b -> sim p (c :: a) (c :: b)
| sim_comma a b : sim true a b -> sim true (44%N :: a) (46%N :: b).

(** A finite number held as a reduced fraction. *)
Definition reduced (n : num) : Prop :=
  match n with Fin q => Qred q = q | _ => True end.

(** Boolean tests on code units, turned into arithmetic. *)
Ltac units :=
  repeat match goal with
    | H : _ && _ = true |- _ => apply andb_true_iff in H; destruct H
    | H : _ || _ = true |- _ => apply orb_true_iff in H; destruct H
    | H : _ && _ = false |- _ => apply andb_false_iff in H; destruct H
    | H : _ || _ = false |- _ => apply orb_false_iff in H; destruct H
    | H : (_ <=? _)%N = true |- _ => apply N.leb_le in H
    | H : (_ <=? _)%N = false |- _ => apply N.leb_gt in H
    | H : (_ =? _)%N = true |- _ => apply N.eqb_eq in H
    | H : (_ =? _)%N = false |- _ => apply N.eqb_neq in H
    end;
  try lia.


(** [String(b)] on booleans. *)
Definition boolToString (b : bool) : str :=
  if b then lit "true" else lit "false".

End Js.

(* ===================================================================== *)
(** * The spreadsheet reader: row normalisation *)
(* ===================================================================== *)

Module Sheet.
Import Js.

(** A cell of [resp.data.values] under [UNFORMATTED_VALUE]; a row
    shorter than four cells destructures the missing ones to
    [undefined]. *)
Inductive cell : Type :=
| CUndefined
| CNull
| CStr (s : str)
| CNum (n : num)
| CBool (b : bool).

Definition row := list cell.

Record ProductRecord : Type := mkProduct {
  image : str;
  name : str;
  price : num;
  description : str
}.

(** The class [[^\d.,\-]] removed by the price clean-up: a code unit is
    kept when it is a digit, a period, a comma or a minus sign. *)
Definition keptInPrice (c : N) : bool :=
  (isDigit c || (c =? 46) || (c =? 44) || (c =? 45))%N.

(** [x.trim().replace(/[^\d.,\-]/g, "").replace(",", ".")] *)
Definition cleaned (s : str) : str :=
  replaceFirst 44 46 (filter keptInPrice (trim s)).

(** [parseFloat(cleaned) || 0] *)
Definition orZero (n : num) : num :=
  if truthy_num n then n else Fin 0.

Definition priceOf (priceRaw : cell) : num :=
  match priceRaw with
  | CNum n => n
  | CStr s => orZero (parseFloat (cleaned s))
  | CBool b => orZero (parseFloat (cleaned (boolToString b)))
  | CNull | CUndefined => Fin 0
  end.

Section Rows.

(** [String(v)] on a number (Number::toString), left abstract. *)
Variable numberToString : num -> str.

Definition toStr (v : cell) : str :=
  match v with
  | CNull | CUndefined => []
  | CStr s => s
  | CNum n => numberToString n
  | CBool b => boolToString b
  end.

(** The callback of [rows.map]. *)
Definition rowToProduct (r : row) : ProductRecord :=
  let imageRaw := nth 0 r CUndefined in
  let nameRaw := nth 1 r CUndefined in
  let priceRaw := nth 2 r CUndefined in
  let descRaw := nth 3 r CUndefined in
  {| image := trim (toStr imageRaw);
     name := trim (toStr nameRaw);
     price := priceOf priceRaw;
     description := trim (toStr descRaw) |}.

(** The predicate of [.filter]: [p.name || p.image || p.description]. *)
Definition keepProduct (p : ProductRecord) : bool :=
  truthy_str (name p) || truthy_str (image p) || truthy_str (description p).

Definition productsOfRows (rows : list row) : list ProductRecord :=
  filter keepProduct (map rowToProduct rows).

(** A row whose image, name and description are all empty once
    normalised, in the words of the specification. *)
Definition rowIsBlank (r : row) : bool :=
  match trim (toStr (nth 0 r CUndefined)),
        trim (toStr (nth 1 r CUndefined)),
        trim (toStr (nth 3 r CUndefined)) with
  | [], [], [] => true
  | _, _, _ => false
  end.

End Rows.

(** The price rule in the words of the specification: strip, replace
    comma with period, parse as a float, unparsable gives 0. *)
Definition zeroIfUnparsable (n : num) : num :=
  match n with
  | NaN => Fin 0
  | v => v
  end.

Definition spec_priceOfString (s : str) : num :=
  zeroIfUnparsable (parseFloat (replaceEvery 44 46 (filter keptInPrice s))).

(** Two rows of a sheet: a product, and a row that is blank but for its
    price. *)
Definition sampleRows : list row :=
  [ [CStr (lit "a.png"); CStr (lit " Latte "); CStr (lit " $5,50 "); CNull];
    [CNull; CStr (lit "  "); CNum (Fin 3)] ].

Definition latte : ProductRecord :=
  {| image := lit "a.png"; name := lit "Latte"; price := Fin (11 # 2);
     description := [] |}.

End Sheet.


(* ===================================================================== *)
(** * Effects: state, exceptions and the trace of outside calls *)
(* ===================================================================== *)

Module Eff.

(** A thrown value: [new Error(message)], or what a library call threw
    or rejected with. *)
Inductive exn : Type :=
| Error (message : string).

(** What the server does to the outside world, in order. *)
Inductive event : Type :=
| ConsoleLog (line : string)
| ConsoleWarn (line : string)
| ConsoleError (line : string)
| CallFetchProductsFromSheet
| AuthGetClient
| SheetsValuesGet (spreadsheetId range : Js.str)
| HttpFetch (url : Js.str)
| WsSend (client : nat) (message : string)
| IoEmit (eventName : string).

Inductive outcome (A : Type) : Type :=
| Ret (a : A)
| Throw (e : exn).
Arguments Throw {A} e.

Definition M (S A : Type) : Type := S -> outcome A * S.

Definition ret {S A} (a : A) : M S A := fun s => (Ret a, s).

Definition throw {S A} (e : exn) : M S A := fun s => (Throw e, s).

Definition bind {S A B} (c : M S A) (k : A -> M S B) : M S B :=
  fun s =>
    match c s with
    | (Ret a, s') => k a s'
    | (Throw e, s') => (Throw e, s')
    end.

(** [try { c } catch (err) { handler err }] *)
Definition tryCatch {S A} (c : M S A) (handler : exn -> M S A) : M S A :=
  fun s =>
    match c s with
    | (Ret a, s') => (Ret a, s')
    | (Throw e, s') => handler e s'
    end.

Definition get {S} : M S S := fun s => (Ret s, s).

Definition modify {S} (f : S -> S) : M S unit := fun s => (Ret tt, f s).

(** A call whose result the outside world decides. *)
Definition ofResult {S A} (r : exn + A) : M S A :=
  match r with
  | inl e => throw e
  | inr a => ret a
  end.

Declare Scope eff_scope.
Delimit Scope eff_scope with eff.
Notation "x <- c ;; k" := (bind c (fun x => k))
  (at level 61, c at next level, right associativity) : eff_scope.
Notation "c ;; k" := (bind c (fun _ => k))
  (at level 61, right associativity) : eff_scope.

End Eff.

(* ===================================================================== *)
(** * The product cache over the spreadsheet reader *)
(* ===================================================================== *)

Module Products.
Import Js Sheet Eff.
Local Open Scope eff_scope.

(** Arrays are objects: the heap maps an address to the array stored
    there, and the cache and the callers hold addresses. *)
Definition ref := nat.

Record Cache : Type := mkCache {
  data : option ref;      (* null, or the array of the last success *)
  ts : Z
}.

Record Server : Type := mkServer {
  heap : list (list ProductRecord);
  productsCache : Cache;
  trace : list event
}.

(** [let productsCache = { data: null, ts: 0 }] *)
Definition initialServer : Server :=
  {| heap := []; productsCache := {| data := None; ts := 0 |}; trace := [] |}.

Record Env : Type := mkEnv {
  SHEET_ID : option str;
  SHEET_RANGE : str;
  GOOGLE_SA_KEY_BASE64 : option str;
  PRODUCTS_CACHE_TTL_MS : num
}.

Record ServiceAccount : Type := mkAccount {
  private_key : option str;
  client_email : option str
}.

(** What the libraries and the network answer during one call. *)
Record World : Type := mkWorld {
  (* JSON.parse(Buffer.from(key, "base64").toString("utf8")) *)
  parseKey : str -> exn + ServiceAccount;
  (* await auth.getClient() *)
  getClient : exn + unit;
  (* await sheets.spreadsheets.values.get(...), then resp.data.values *)
  valuesGet : exn + option (list row);
  (* String(v) on a number *)
  numberToString : num -> str
}.

Definition emit (e : event) : M Server unit :=
  modify (fun s => {| heap := heap s; productsCache := productsCache s;
                      trace := trace s ++ [e] |}).

Definition alloc (a : list ProductRecord) : M Server ref :=
  fun s => (Ret (List.length (heap s)),
            {| heap := heap s ++ [a]; productsCache := productsCache s;
               trace := trace s |}).

Definition setCache (c : Cache) : M Server unit :=
  modify (fun s => {| heap := heap s; productsCache := c; trace := trace s |}).

(** [.replace(/\\n/g, "\n")]: a backslash followed by [n] becomes a
    line feed. *)
Fixpoint unescapeNewlines (s : str) : str :=
  match s with
  | c :: r =>
      match r with
      | d :: r' =>
          if ((c =? 92) && (d =? 110))%N then 10%N :: unescapeNewlines r'
          else c :: unescapeNewlines r
      | [] => [c]
      end
  | [] => []
  end.

Definition getSheetsClient (env : Env) (w : World) : M Server ServiceAccount :=
  if negb (truthy_str (orEmpty (GOOGLE_SA_KEY_BASE64 env)))
  then throw (Error "Missing GOOGLE_SA_KEY_BASE64")
  else
    json <- ofResult (parseKey w (orEmpty (GOOGLE_SA_KEY_BASE64 env))) ;;
    let key := unescapeNewlines (orEmpty (private_key json)) in
    if negb (truthy_str key)
    then throw (Error "Service Account private_key is empty")
    else
      emit AuthGetClient ;;
      ofResult (getClient w) ;;
      ret {| private_key := Some key; client_email := client_email json |}.

Definition fetchProductsFromSheet (env : Env) (w : World) : M Server ref :=
  emit CallFetchProductsFromSheet ;;
  if negb (truthy_str (orEmpty (SHEET_ID env)))
  then throw (Error "Missing SHEET_ID")
  else
    getSheetsClient env w ;;
    emit (SheetsValuesGet (orEmpty (SHEET_ID env)) (SHEET_RANGE env)) ;;
    values <- ofResult (valuesGet w) ;;
    let rows := match values with Some rows => rows | None => [] end in
    alloc (productsOfRows (numberToString w) rows).

(** [productsCache.data && now - productsCache.ts < PRODUCTS_CACHE_TTL_MS]:
    the stored array when the guard holds. *)
Definition freshData (env : Env) (now : Z) (c : Cache) : option ref :=
  match data c with
  | Some d =>
      if lt (Fin (inject_Z (now - ts c))) (PRODUCTS_CACHE_TTL_MS env)
      then Some d else None
  | None => None
  end.

(** [productsCache.data || []] *)
Definition dataOrEmpty : M Server ref :=
  s <- get ;;
  match data (productsCache s) with
  | Some old => ret old
  | None => alloc []
  end.

(** [getProducts], with [now] the value of [Date.now()]. *)
Definition getProducts (env : Env) (now : Z) (w : World) : M Server ref :=
  s <- get ;;
  match freshData env now (productsCache s) with
  | Some d => ret d
  | None =>
      tryCatch
        (d <- fetchProductsFromSheet env w ;;
         setCache {| data := Some d; ts := now |} ;;
         ret d)
        (fun err =>
           emit (ConsoleError "[products] sheet fetch failed:") ;;
           dataOrEmpty)
  end.

(** The events added to the trace between two states of the server. *)
Definition newEvents (s s' : Server) : list event :=
  skipn (List.length (trace s)) (trace s').

(** Running a computation of the effect model one step at a time. *)
Ltac run :=
  unfold bind, tryCatch, ofResult, emit, setCache, alloc, modify, get, ret, throw;
  simpl.

(** A configured server, a world whose Sheets call fails, and a server
    whose cache was filled at time 1000. *)
Definition sampleEnv : Env :=
  {| SHEET_ID := Some (lit "sheet"); SHEET_RANGE := lit "Products!A2:D";
     GOOGLE_SA_KEY_BASE64 := Some (lit "a2V5"); PRODUCTS_CACHE_TTL_MS := Fin 60000 |}.

Definition downWorld : World :=
  {| parseKey := fun _ => inr {| private_key := Some (lit "k"); client_email := None |};
     getClient := inr tt;
     valuesGet := inl (Error "ECONNRESET");
     numberToString := fun _ => lit "0" |}.

Definition warmServer : Server :=
  {| heap := [[ {| image := lit "a.png"; name := lit "Latte"; price := Fin (7 # 2);
                   description := [] |} ]];
     productsCache := {| data := Some 0%nat; ts := 1000 |};
     trace := [] |}.

End Products.

(* ===================================================================== *)
(** * GET /images: the image listing *)
(* ===================================================================== *)

Module Images.
Import Js Eff.
Local Open Scope eff_scope.

(** A directory entry of [readdir(..., { withFileTypes: true })]. *)
Record Dirent : Type := mkDirent {
  d_name : str;
  isFile : bool
}.

(** The images folder as the handler sees it. *)
Record Folder : Type := mkFolder {
  existsSync : bool;
  readdir : exn + list Dirent
}.

Record Response : Type := mkResponse {
  status : N;
  cacheControl : option string;
  json : list str
}.

(** Canonicalisation of the [i] flag: an ASCII lower-case letter
    becomes its upper-case letter; no other code unit becomes an ASCII
    letter. *)
Definition canonicalize (c : N) : N :=
  if ((97 <=? c) && (c <=? 122))%N then (c - 32)%N else c.

Fixpoint eqIgnoreCase (a b : str) : bool :=
  match a, b with
  | [], [] => true
  | x :: a', y :: b' => (canonicalize x =? canonicalize y)%N && eqIgnoreCase a' b'
  | _, _ => false
  end.

(** The alternatives of [/\.(jpg|jpeg|png|gif|webp|avif)$/i]. *)
Definition alternatives : list str :=
  [lit "jpg"; lit "jpeg"; lit "png"; lit "gif"; lit "webp"; lit "avif"].

(** The pattern matched at the head of [s]: a period, one alternative,
    then the end of the input. *)
Definition matchHere (s : str) : bool :=
  match s with
  | c :: r => (c =? 46)%N && existsb (eqIgnoreCase r) alternatives
  | [] => false
  end.

(** [regex.test(name)]: the pattern is tried at every start index. *)
Fixpoint test (name : str) : bool :=
  match name with
  | [] => false
  | _ :: r => matchHere name || test r
  end.

Definition send (body : list str) : Response :=
  {| status := 200; cacheControl := Some "no-store"%string; json := body |}.

(** The handler of [GET /images]; the state is the console. *)
Definition getImages (folder : Folder) : M (list event) Response :=
  modify (fun t => t ++ [ConsoleLog "[/images] reading folder:"]) ;;
  tryCatch
    (if negb (existsSync folder) then
       modify (fun t => t ++ [ConsoleWarn "[/images] folder does NOT exist"]) ;;
       ret (send [])
     else
       files <- ofResult (readdir folder) ;;
       let images := filter test (map d_name (filter isFile files)) in
       ret (send images))
    (fun err =>
       modify (fun t => t ++ [ConsoleError "[/images] error:"]) ;;
       ret (send [])).

(** The listing in the words of the specification: the extension is
    what follows the last period of the name. *)
Fixpoint extension (name : str) : option str :=
  match name with
  | [] => None
  | c :: r =>
      match extension r with
      | Some e => Some e
      | None => if (c =? 46)%N then Some r else None
      end
  end.

Definition toLower (c : N) : N :=
  if ((65 <=? c) && (c <=? 90))%N then (c + 32)%N else c.

Definition allowedExtension (name : str) : bool :=
  match extension name with
  | Some e => existsb (str_eqb (map toLower e)) alternatives
  | None => false
  end.

Definition spec_listImages (folder : Folder) : list str :=
  if existsSync folder then
    match readdir folder with
    | inr files =>
        map d_name (filter (fun f => isFile f && allowedExtension (d_name f)) files)
    | inl _ => []
    end
  else [].

(** ASCII lower-case letters, and names without a period. *)
Definition isLower (c : N) : bool := ((97 <=? c) && (c <=? 122))%N.

Definition noPeriod (s : str) : bool := forallb (fun c => negb (c =? 46)%N) s.

End Images.

(* ===================================================================== *)
(** * GET /img/:id: the Drive image proxy *)
(* ===================================================================== *)

Module Proxy.
Import Js Eff.
Local Open Scope eff_scope.

(** The result of [await fetch(url, { redirect: "follow" })]: the
    promise rejects, or resolves to a response whose [arrayBuffer()]
    may itself reject. *)
Record UpstreamResponse : Type := mkUpstream {
  ok : bool;
  upstreamStatus : N;
  contentType : option str;       (* r.headers.get("content-type") *)
  arrayBuffer : exn + list N
}.

Inductive body : Type :=
| Text (s : string)
| Binary (bytes : list N).

(** The Express response object, mutated by the handler; [headers] are
    those the handler sets with [setHeader] (what Express adds or
    adjusts of its own when it sends is not recorded). *)
Record Res : Type := mkRes {
  statusCode : N;
  headers : list (string * str);
  sent : option body
}.

Record Conn : Type := mkConn {
  res : Res;
  trace : list event
}.

Definition freshConn : Conn :=
  {| res := {| statusCode := 200; headers := []; sent := None |}; trace := [] |}.

Definition emit (e : event) : M Conn unit :=
  modify (fun c => {| res := res c; trace := trace c ++ [e] |}).

Definition setStatus (n : N) : M Conn unit :=
  modify (fun c => {| res := {| statusCode := n; headers := headers (res c);
                                sent := sent (res c) |};
                      trace := trace c |}).

Definition setHeader (k : string) (v : str) : M Conn unit :=
  modify (fun c => {| res := {| statusCode := statusCode (res c);
                                headers := headers (res c) ++ [(k, v)];
                                sent := sent (res c) |};
                      trace := trace c |}).

(** [res.end(buf)]: the bytes are sent as they are, with the headers
    set so far. *)
Definition end_ (buf : list N) : M Conn unit :=
  modify (fun c => {| res := {| statusCode := statusCode (res c);
                                headers := headers (res c);
                                sent := Some (Binary buf) |};
                      trace := trace c |}).

(** [res.send(text)]: the text is sent.  Express describes a text of
    its own accord (it adds a charset to the Content-Type, or sets the
    type when there is none); that is its doing, not the handler's, and
    [headers], the handler's own [setHeader] calls, does not show it. *)
Definition send (text : string) : M Conn unit :=
  modify (fun c => {| res := {| statusCode := statusCode (res c);
                                headers := headers (res c);
                                sent := Some (Text text) |};
                      trace := trace c |}).

(** [/^[\w-]{10,}$/.test(id)] *)
Definition validId (id : str) : bool :=
  (10 <=? List.length id)%nat && forallb (fun c => isWord c || (c =? 45)%N) id.

Definition driveUrl (id : str) : str :=
  lit "https://drive.google.com/uc?export=view&id=" ++ id.

(** The handler, with [param] the value of [req.params.id] and
    [upstream] what the network answers to a fetch of a URL. *)
Definition getImg (param : str) (upstream : str -> exn + UpstreamResponse)
  : M Conn unit :=
  tryCatch
    (let id := trim param in
     if negb (validId id) then
       setStatus 400 ;; send "bad id"
     else
       let url := driveUrl id in
       emit (HttpFetch url) ;;
       r <- ofResult (upstream url) ;;
       if negb (ok r) then
         emit (ConsoleError "[img] fetch failed:") ;;
         setStatus 502 ;; send "upstream error"
       else
         let ct := if truthy_str (orEmpty (contentType r))
                   then orEmpty (contentType r) else lit "image/jpeg" in
         setHeader "Content-Type" ct ;;
         setHeader "Cache-Control" (lit "public, max-age=86400") ;;
         buf <- ofResult (arrayBuffer r) ;;
         end_ buf)
    (fun e =>
       emit (ConsoleError "[img] error:") ;;
       setStatus 500 ;; send "proxy error").

(** Running the handler one step at a time. *)
Ltac run :=
  unfold getImg, bind, tryCatch, ofResult, emit, setStatus, setHeader, end_, send,
    modify, ret, throw;
  simpl.

(** An upstream that serves a PNG for every URL. *)
Definition servesPng (url : str) : exn + UpstreamResponse :=
  inr {| ok := true; upstreamStatus := 200; contentType := Some (lit "image/png");
         arrayBuffer := inr [137; 80; 78; 71]%N |}.

End Proxy.

(* ===================================================================== *)
(** * The folder watcher and the client notification *)
(* ===================================================================== *)

Module Notify.
Import Js Eff.
Local Open Scope eff_scope.

Definition log (e : event) : M (list event) unit :=
  modify (fun t => t ++ [e]).

(** The callback given to [fs.watch]; [filename] is [null] or a string. *)
Section Watcher.
Variable notifyClients : M (list event) unit.

Definition onChange (eventType : str) (filename : option str)
  : M (list event) unit :=
  if truthy_str (orEmpty filename) then
    log (ConsoleLog "[watch] change detected") ;;
    notifyClients
  else ret tt.
End Watcher.

(** The server over Socket.IO: the library does the fan-out. *)
Module SocketIO.
Definition notifyClients : M (list event) unit := log (IoEmit "update").

Definition watchCallback := onChange notifyClients.
End SocketIO.

(** The server over [ws]: the loop over [wss.clients] is the server's. *)
Module Ws.
Inductive ReadyState : Type := CONNECTING | OPEN | CLOSING | CLOSED.

Record Client : Type := mkClient {
  cid : nat;
  readyState : ReadyState
}.

Definition isOpen (c : Client) : bool :=
  match readyState c with OPEN => true | _ => false end.

(** [client.send(message)]; the socket decides whether the call
    returns or throws, and a message is handed over only when it
    returns. *)
Definition send (sendResult : nat -> exn + unit) (c : Client) (message : string)
  : M (list event) unit :=
  ofResult (sendResult (cid c)) ;;
  log (WsSend (cid c) message).

(** [clients.forEach(f)] *)
Fixpoint forEach (f : Client -> M (list event) unit) (clients : list Client)
  : M (list event) unit :=
  match clients with
  | [] => ret tt
  | c :: rest => f c ;; forEach f rest
  end.

Definition notifyClients (sendResult : nat -> exn + unit) (clients : list Client)
  : M (list event) unit :=
  forEach (fun client =>
             if isOpen client then send sendResult client "update"
             else ret tt)
          clients.

Definition watchCallback sendResult clients :=
  onChange (notifyClients sendResult clients).
End Ws.

(** Number of broadcasts in a trace of the Socket.IO server. *)
Definition isBroadcast (e : event) : bool :=
  match e with IoEmit _ => true | _ => false end.

Definition broadcasts (t : list event) : nat :=
  List.length (filter isBroadcast t).

(** The messages handed to one client, in order. *)
Definition sentTo (client : nat) (t : list event) : list string :=
  flat_map (fun e => match e with
                     | WsSend c m => if Nat.eqb c client then [m] else []
                     | _ => []
                     end) t.

(** The messages one broadcast hands to the clients [l], in order. *)
Definition updatesFor (l : list Ws.Client) : list event :=
  map (fun c => WsSend (Ws.cid c) "update") l.

(** Three open clients. *)
Definition threeClients : list Ws.Client :=
  [ {| Ws.cid := 0; Ws.readyState := Ws.OPEN |};
    {| Ws.cid := 1; Ws.readyState := Ws.OPEN |};
    {| Ws.cid := 2; Ws.readyState := Ws.OPEN |} ].




End Notify.

(* ===================================================================== *)
(** * GET /products *)
(* ===================================================================== *)

Module Catalog.
Import Js Sheet Eff Products.
Local Open Scope eff_scope.

(** The array stored at an address (addresses handed out by the server
    are always allocated; the default is never reached from them). *)
Definition deref (s : Server) (r : ref) : list ProductRecord :=
  nth r (heap s) [].

(** The cache, when filled, points to an allocated array. *)
Definition cacheValid (s : Server) : Prop :=
  match data (productsCache s) with
  | Some d => (d < List.length (heap s))%nat
  | None => True
  end.

Definition isSheetsRequest (e : event) : bool :=
  match e with SheetsValuesGet _ _ => true | _ => false end.

Definition isAuthRequest (e : event) : bool :=
  match e with AuthGetClient => true | _ => false end.

Definition occurrences (f : event -> bool) (t : list event) : nat :=
  List.length (filter f t).

Record Response : Type := mkResponse {
  status : N;
  cacheControl : option string;
  body : list ProductRecord       (* what [res.json] serialises *)
}.

(** The handler of [GET /products]. *)
Definition productsRoute (env : Env) (now : Z) (w : World) : M Server Response :=
  tryCatch
    (products <- getProducts env now w ;;
     s <- get ;;
     let answer := {| status := 200; cacheControl := Some "no-store"%string;
                      body := deref s products |} in
     emit (ConsoleLog "[/products] returned items") ;;
     ret answer)
    (fun _ =>
       ret {| status := 200; cacheControl := Some "no-store"%string; body := [] |}).

(** A world whose Sheets call answers two rows. *)
Definition upWorld : World :=
  {| parseKey := fun _ => inr {| private_key := Some (lit "k"); client_email := None |};
     getClient := inr tt;
     valuesGet := inr (Some sampleRows);
     numberToString := fun _ => lit "3" |}.

(** An escaped line feed: a backslash followed by [n]. *)
Fixpoint containsEscape (s : str) : bool :=
  match s with
  | c :: r =>
      match r with
      | d :: _ => ((c =? 92) && (d =? 110))%N || containsEscape r
      | [] => false
      end
  | [] => false
  end.

End Catalog.

(* ===================================================================== *)
(** * The proxy's requests, and the watcher over a run of events *)
(* ===================================================================== *)

Module Outside.
Import Js Eff Notify.
Local Open Scope eff_scope.

(** The URLs fetched in a trace, in order. *)
Definition fetchedUrls (t : list event) : list str :=
  flat_map (fun e => match e with HttpFetch url => [url] | _ => [] end) t.

(** A change notification as [fs.watch] delivers it. *)
Record WatchEvent : Type := mkWatchEvent {
  eventType : str;
  filename : option str
}.

Definition named (e : WatchEvent) : bool := truthy_str (orEmpty (filename e)).

(** The listener called once per notification, in the order of arrival. *)
Fixpoint deliver (listener : str -> option str -> M (list event) unit)
         (events : list WatchEvent) : M (list event) unit :=
  match events with
  | [] => ret tt
  | e :: rest => listener (eventType e) (filename e) ;; deliver listener rest
  end.

(** The watch of the Socket.IO server: installed at start only when the
    images folder exists, with a warning otherwise. *)
Definition watchImages (folderExists : bool) (events : list WatchEvent)
  : M (list event) unit :=
  if folderExists then deliver SocketIO.watchCallback events
  else log (ConsoleWarn "WARNING: public/images no existe").

End Outside.

(* ===================================================================== *)
(** * The first server's GET /images *)
(* ===================================================================== *)

Module FirstServer.
Import Js Eff Images.

(** A pattern [/\.(a|b|...)$/i] for any list of alternatives. *)
Definition matchHereWith (alts : list str) (s : str) : bool :=
  match s with
  | c :: r => (c =? 46)%N && existsb (eqIgnoreCase r) alts
  | [] => false
  end.

Fixpoint testWith (alts : list str) (name : str) : bool :=
  match name with
  | [] => false
  | _ :: r => matchHereWith alts name || testWith alts r
  end.

(** The alternatives of [/\.(jpg|jpeg|png|gif)$/i]. *)
Definition alternativesV1 : list str :=
  [lit "jpg"; lit "jpeg"; lit "png"; lit "gif"].

Inductive Body : Type :=
| ErrorJson (error : string)
| NamesJson (names : list str).

Record Response : Type := mkResponse {
  status : N;
  body : Body
}.

(** The callback of [fs.readdir(imagesFolder, (err, files) => ...)]:
    [files] are bare names, directories included. *)
Definition getImages (readdir : exn + list str) : Response :=
  match readdir with
  | inl _ => {| status := 500; body := ErrorJson "No se pudieron leer las imágenes" |}
  | inr files =>
      {| status := 200; body := NamesJson (filter (testWith alternativesV1) files) |}
  end.

(** The extension after the last period is one of [alts], whatever its
    case. *)
Definition allowedWith (alts : list str) (name : str) : bool :=
  match extension name with
  | Some e => existsb (str_eqb (map toLower e)) alts
  | None => false
  end.

End FirstServer.

(* ===================================================================== *)
(** * Node's [path] on a bare file name *)
(* ===================================================================== *)

Module NodePath.
Import Js.

(** Index of the last period of a name. *)
Fixpoint lastDot (s : str) : option nat :=
  match s with
  | [] => None
  | c :: r =>
      match lastDot r with
      | Some i => Some (S i)
      | None => if (c =? 46)%N then Some O else None
      end
  end.

(** [path.extname(name)] for a name without a slash: from the last
    period to the end, except that a name whose only period comes first,
    and the name [..], have no extension. *)
Definition extname (name : str) : str :=
  match lastDot name with
  | None => []
  | Some O => []
  | Some (S i) => if str_eqb name (lit "..") then [] else skipn (S i) name
  end.

(** [path.parse(name).name]: the name without its extension. *)
Definition parsedName (name : str) : str :=
  match extname name with
  | [] => name
  | _ :: _ => firstn (List.length name - List.length (extname name)) name
  end.

Fixpoint endsWith (s suffix : str) : bool :=
  str_eqb s suffix
  || match s with
     | [] => false
     | _ :: r => endsWith r suffix
     end.

(** [path.basename(name, suffix)] for a name without a slash. *)
Definition basename (name suffix : str) : str :=
  if truthy_str suffix && (List.length suffix <=? List.length name)%nat then
    if str_eqb suffix name then []
    else if endsWith name suffix
         then firstn (List.length name - List.length suffix) name
         else name
  else name.

End NodePath.

(* ===================================================================== *)
(** * The seeding scripts *)
(* ===================================================================== *)

Module Seed.
Import Js Eff Images NodePath.
Local Open Scope eff_scope.

(** The [images] table, by the two columns the script writes; [title]
    is [UNIQUE].  The statements are taken to succeed. *)
Record ImageRow : Type := mkImageRow {
  title : str;
  url : str
}.

Definition Table := list ImageRow.

(** [INSERT ... ON CONFLICT(title) DO UPDATE SET url = excluded.url] *)
Fixpoint upsertRow (t u : str) (tbl : Table) : Table :=
  match tbl with
  | [] => [ {| title := t; url := u |} ]
  | r :: rest =>
      if str_eqb (title r) t then {| title := t; url := u |} :: rest
      else r :: upsertRow t u rest
  end.

Definition upsertImage (t u : str) : M Table unit := modify (upsertRow t u).

Definition lookupUrl (t : str) (tbl : Table) : option str :=
  option_map url (find (fun r => str_eqb (title r) t) tbl).

(** [VALID_EXT] *)
Definition VALID_EXT : list str :=
  [lit ".png"; lit ".jpg"; lit ".jpeg"; lit ".webp"; lit ".gif"; lit ".avif"].

Definition validExt (ext : str) : bool := existsb (str_eqb ext) VALID_EXT.

(** [.replace(/[_-]+/g, " ")]: every run of underscores and hyphens
    becomes one space; [inRun] tells that the run has begun. *)
Fixpoint collapseSeparators (inRun : bool) (s : str) : str :=
  match s with
  | [] => []
  | c :: r =>
      if ((c =? 95) || (c =? 45))%N then
        if inRun then collapseSeparators true r
        else 32%N :: collapseSeparators true r
      else c :: collapseSeparators false r
  end.

(** The extension as the script computes it: [extname] in lower case
    (no code unit outside ASCII has one of the letters of [VALID_EXT]
    as its lower case). *)
Definition lowerExt (name : str) : str := map toLower (extname name).

Definition titleOf (name : str) : str :=
  trim (collapseSeparators false (basename name (lowerExt name))).

(** A directory entry the folder seeding takes. *)
Definition seedable (f : Dirent) : bool :=
  isFile f && validExt (lowerExt (d_name f)).

Section Folder.
(** [encodeURIComponent], which throws on a lone surrogate. *)
Variable encodeURIComponent : str -> exn + str.

(** The body of [for (const f of files)], with the running count. *)
Fixpoint seedFiles (files : list Dirent) (count : nat) : M Table nat :=
  match files with
  | [] => ret count
  | f :: rest =>
      if negb (isFile f) then seedFiles rest count
      else if negb (validExt (lowerExt (d_name f))) then seedFiles rest count
      else
        encoded <- ofResult (encodeURIComponent (d_name f)) ;;
        upsertImage (titleOf (d_name f)) (lit "/images/" ++ encoded) ;;
        seedFiles rest (S count)
  end.

Definition seedFromFolder (readdir : exn + list Dirent) : M Table nat :=
  tryCatch (files <- ofResult readdir ;; seedFiles files 0)
           (fun _ => ret 0%nat).
End Folder.

(** A parsed JSON value; an object has each key once. *)
#[warnings="-register-all"]
Inductive json : Type :=
| JNull
| JBool (b : bool)
| JNum (n : num)
| JStr (s : str)
| JArr (items : list json)
| JObj (fields : list (str * json)).

(** [item?.key ?? ""], before the conversion to a string: the value of
    an own key of an object, unless it is [null]. *)
Definition field (item : json) (key : str) : option json :=
  match item with
  | JObj fields =>
      match find (fun kv => str_eqb (fst kv) key) fields with
      | Some (_, JNull) => None
      | Some (_, v) => Some v
      | None => None
      end
  | _ => None
  end.

Section Json.
(** [String(v)] on a number, an array or an object (the last two may
    throw). *)
Variable stringOfOther : json -> exn + str.

Definition stringOf (v : json) : exn + str :=
  match v with
  | JStr s => inr s
  | JBool b => inr (boolToString b)
  | _ => stringOfOther v
  end.

(** [String(item?.key ?? "").trim()] *)
Definition text (item : json) (key : str) : M Table str :=
  match field item key with
  | None => ret (trim [])
  | Some v => s <- ofResult (stringOf v) ;; ret (trim s)
  end.

Fixpoint seedItems (items : list json) (count : nat) : M Table nat :=
  match items with
  | [] => ret count
  | item :: rest =>
      t <- text item (lit "title") ;;
      u <- text item (lit "url") ;;
      if negb (truthy_str t) || negb (truthy_str u) then seedItems rest count
      else upsertImage t u ;; seedItems rest (S count)
  end.

(** [seedFile] is what reading and parsing [seed.json] gives. *)
Definition seedFromJson (seedFile : exn + json) : M Table nat :=
  tryCatch
    (parsed <- ofResult seedFile ;;
     match parsed with
     | JArr items => seedItems items 0
     | _ => ret 0%nat
     end)
    (fun _ => ret 0%nat).

Variable encodeURIComponent : str -> exn + str.

(** What the file system and the database answer to the calls [main]
    makes itself, outside any [try]. *)
Record Script : Type := mkScript {
  mkdir : exn + unit;        (* fs.mkdir(dataDir, { recursive: true }) *)
  openDb : exn + unit;       (* open({ filename: DB_PATH, driver }) *)
  schemaExec : exn + unit;   (* db.exec of CREATE TABLE IF NOT EXISTS *)
  countRows : exn + unit;    (* db.get of SELECT COUNT *)
  closeDb : exn + unit       (* db.close() *)
}.

(** The table, and the two counts [main] logs once it has them: the
    seeds inserted or updated and the total of rows. *)
Record Run : Type := mkRun {
  table : Table;
  reported : option (nat * nat)
}.

(** A computation on the table, run inside the script. *)
Definition onTable {A} (c : M Table A) : M Run A :=
  fun s => let (o, t) := c (table s) in
           (o, {| table := t; reported := reported s |}).

Definition ensureSchema (w : Script) : M Run unit := ofResult (schemaExec w).

Definition report (inserted : nat) : M Run unit :=
  modify (fun s => {| table := table s;
                      reported := Some (inserted, List.length (table s)) |}).

Definition main (w : Script) (seedFile : exn + json)
           (readdir : exn + list Dirent) : M Run unit :=
  ofResult (mkdir w) ;;
  ofResult (openDb w) ;;
  ensureSchema w ;;
  inserted <- onTable (seedFromJson seedFile) ;;
  inserted <- (if Nat.eqb inserted 0
               then onTable (seedFromFolder encodeURIComponent readdir)
               else ret inserted) ;;
  ofResult (countRows w) ;;
  report inserted ;;
  ofResult (closeDb w).
End Json.

(** A run in which every call of the script succeeds. *)
Definition healthyScript : Script :=
  {| mkdir := inr tt; openDb := inr tt; schemaExec := inr tt;
     countRows := inr tt; closeDb := inr tt |}.

(** An item whose title and URL are strings or absent, what they read
    as, and whether the item is taken. *)
Definition plainText (item : json) (key : str) : str :=
  match field item key with
  | Some (JStr s) => trim s
  | _ => []
  end.

Definition stringField (item : json) (key : str) : bool :=
  match field item key with
  | None | Some (JStr _) => true
  | Some _ => false
  end.

Definition plain (item : json) : bool :=
  stringField item (lit "title") && stringField item (lit "url").

Definition usable (item : json) : bool :=
  truthy_str (plainText item (lit "title")) && truthy_str (plainText item (lit "url")).

End Seed.

(* ===================================================================== *)
(** * Rounding to binary64 *)
(* ===================================================================== *)

Module Binary64.

(** Two to the [k]. *)
Definition pow2 (k : Z) : Q := Qpower (2 # 1) k.

(** The exponent of [x > 0]: the [e] with [2^e <= x < 2^(e+1)]. *)
Definition ilog2 (x : Q) : Z :=
  let e0 := (Z.log2 (Qnum x) - Z.log2 (Z.pos (Qden x)))%Z in
  if Qle_bool (pow2 e0) x then e0 else (e0 - 1)%Z.

(** The nearest integer, a tie going to the even one. *)
Definition roundEven (y : Q) : Z :=
  let f := Qround.Qfloor y in
  match (y - inject_Z f ?= 1 # 2)%Q with
  | Lt => f
  | Gt => (f + 1)%Z
  | Eq => if Z.even f then f else (f + 1)%Z
  end.

(** The spacing of the binary64 numbers around [x > 0]: 53 significant
    bits, and 2^-1074 at the least. *)
Definition spacing (x : Q) : Q := pow2 (Z.max (ilog2 x - 52) (-1074)).

(** The binary64 number nearest to [x > 0], a tie going to the even
    significand.  The overflow to infinity, from 2^1024 on, is not
    modelled. *)
Definition roundPositive (x : Q) : Q :=
  (inject_Z (roundEven (x / spacing x)) * spacing x)%Q.

Definition round (x : Q) : Q :=
  match (x ?= 0)%Q with
  | Eq => 0%Q
  | Gt => roundPositive x
  | Lt => (- roundPositive (- x))%Q
  end.


(** The product of two binary64 numbers, as the machine computes it. *)
Definition mul (x y : Q) : Q := round (x * y)%Q.

End Binary64.

(* ===================================================================== *)
(** * The first set-up script: default products *)
(* ===================================================================== *)

Module Setup.
Import Js Eff FirstServer NodePath.
Local Open Scope eff_scope.




(** [Math.floor(Math.random() * 100) + 10], with [r] the random number:
    the product is the binary64 product, the sum of two small whole
    numbers is exact. *)
Definition randomPrice (r : Q) : Z :=
  (Qround.Qfloor (Binary64.mul r (100 # 1)) + 10)%Z.





End Setup.

(* ===================================================================== *)
(** * GET /products/debug *)
(* ===================================================================== *)

Module Debug.
Import Js Sheet Eff Products.
Local Open Scope eff_scope.

Inductive DebugBody : Type :=
| DebugOk (sheetId : option str) (range : str) (availableSheets : list str)
          (rowCount : nat) (sample : list row)
| DebugFailed (error : exn).

Record DebugResponse : Type := mkDebugResponse {
  status : N;
  cacheControl : option string;
  body : DebugBody
}.

(** [values.data.values?.slice(0, 3) || []] and
    [values.data.values?.length || 0] *)
Definition sampleOf (values : option (list row)) : list row :=
  match values with
  | Some rows => firstn 3 rows
  | None => []
  end.

Definition rowCountOf (values : option (list row)) : nat :=
  match values with
  | Some rows => List.length rows
  | None => 0
  end.

(** The handler; [sheetTitles] is what the request for the spreadsheet
    and the reading of its sheet titles give. *)
Definition debugRoute (env : Env) (w : World) (sheetTitles : exn + list str)
  : M Server DebugResponse :=
  tryCatch
    (getSheetsClient env w ;;
     availableSheets <- ofResult sheetTitles ;;
     values <- ofResult (valuesGet w) ;;
     ret {| status := 200; cacheControl := Some "no-store"%string;
            body := DebugOk (SHEET_ID env) (SHEET_RANGE env) availableSheets
                            (rowCountOf values) (sampleOf values) |})
    (fun e =>
       ret {| status := 500; cacheControl := Some "no-store"%string;
              body := DebugFailed e |}).

End Debug.

(* ===================================================================== *)
(** * Facts about strings and [parseFloat] *)
(* ===================================================================== *)

Module JsFacts.
Import Js.

Lemma trimStart_filter (keep : N -> bool) (s : str) :
  (forall c, isWhiteSpace c = true -> keep c = false) ->
  filter keep (trimStart s) = filter keep s.
Proof.
  intros Hk. induction s as [|c r IH]; simpl; [reflexivity|].
  destruct (isWhiteSpace c) eqn:Hc; [|reflexivity].
  rewrite (Hk c Hc). exact IH.
Qed.

Lemma trim_filter (keep : N -> bool) (s : str) :
  (forall c, isWhiteSpace c = true -> keep c = false) ->
  filter keep (trim s) = filter keep s.
Proof.
  intros Hk. unfold trim, trimEnd.
  rewrite filter_rev, (trimStart_filter _ _ Hk), filter_rev, rev_involutive.
  apply trimStart_filter, Hk.
Qed.

Lemma trimStart_head (s : str) c r :
  trimStart s = c :: r -> isWhiteSpace c = false.
Proof.
  induction s as [|x t IH]; simpl; [discriminate|].
  destruct (isWhiteSpace x) eqn:Hx; [exact IH|].
  intros [= <- _]. exact Hx.
Qed.

Lemma trimStart_suffix (s : str) : exists w, s = w ++ trimStart s.
Proof.
  induction s as [|c r [w IH]]; simpl; [now exists []|].
  destruct (isWhiteSpace c); [|now exists []].
  exists (c :: w). simpl. now f_equal.
Qed.

Lemma trimStart_id (s : str) :
  match s with [] => True | c :: _ => isWhiteSpace c = false end ->
  trimStart s = s.
Proof. destruct s as [|c r]; simpl; [reflexivity|]. now intros ->. Qed.

Lemma trimStart_idempotent (s : str) : trimStart (trimStart s) = trimStart s.
Proof.
  apply trimStart_id. destruct (trimStart s) as [|c r] eqn:E; [exact I|].
  exact (trimStart_head s E).
Qed.

(** Trimming a trimmed string changes nothing. *)
Lemma trim_idempotent (s : str) : trim (trim s) = trim s.
Proof.
  unfold trim, trimEnd.
  set (u := trimStart s). set (v := trimStart (rev u)).
  assert (Hv : trimStart v = v) by apply trimStart_idempotent.
  assert (Ht : trimStart (rev v) = rev v).
  { destruct (trimStart_suffix (rev u)) as [w Hw]. fold v in Hw.
    assert (Hu : u = rev v ++ rev w).
    { rewrite <- (rev_involutive u), Hw. apply rev_app_distr. }
    apply trimStart_id. destruct (rev v) as [|c t] eqn:E; [exact I|].
    simpl in Hu. exact (trimStart_head s Hu). }
  now rewrite Ht, rev_involutive, Hv.
Qed.

Lemma sim_weaken p a b : sim p a b -> sim true a b.
Proof.
  induction 1; constructor; auto.
Qed.

Lemma sim_every_after (s : str) : sim true s (replaceEvery 44 46 s).
Proof.
  induction s as [|c r IH]; simpl; [constructor|].
  destruct (c =? 44)%N eqn:Hc.
  - apply N.eqb_eq in Hc. subst c. now constructor.
  - now constructor.
Qed.

Lemma sim_first_every (s : str) :
  sim false (replaceFirst 44 46 s) (replaceEvery 44 46 s).
Proof.
  induction s as [|c r IH]; simpl; [constructor|].
  destruct (c =? 44)%N eqn:Hc.
  - constructor. simpl. apply sim_every_after.
  - constructor. destruct (c =? 46)%N; simpl; [|exact IH].
    eapply sim_weaken; exact IH.
Qed.

Lemma sim_spanDigits p a b :
  sim p a b ->
  fst (spanDigits a) = fst (spanDigits b)
  /\ sim p (snd (spanDigits a)) (snd (spanDigits b)).
Proof.
  induction 1 as [p | p c a b H IH | a b H IH]; simpl.
  - split; [reflexivity | constructor].
  - destruct (isDigit c) eqn:Hd.
    + assert (Hc : (c =? 46)%N = false).
      { unfold isDigit in Hd. destruct (c =? 46)%N eqn:E; [|reflexivity]. units. }
      rewrite Hc, orb_false_r in IH, H.
      destruct (spanDigits a) as [da ra], (spanDigits b) as [db rb]; simpl in *.
      destruct IH as [-> Hs]. split; [reflexivity | exact Hs].
    + simpl. split; [reflexivity | now constructor].
  - split; [reflexivity | now constructor].
Qed.

Lemma sim_exponentPart p a b : sim p a b -> exponentPart a = exponentPart b.
Proof.
  intros H. destruct H as [p | p c a b H | a b H]; simpl; try reflexivity.
  destruct ((c =? 101) || (c =? 69))%N eqn:Hc; [|reflexivity].
  assert (Hp : (c =? 46)%N = false).
  { destruct (c =? 46)%N eqn:E; [|reflexivity]. units. }
  rewrite Hp, orb_false_r in H.
  pose proof (sim_spanDigits H) as [Hfull _].
  destruct H as [p | p x a b H | a b H]; try reflexivity.
  - pose proof (sim_spanDigits H) as [Hd _].
    destruct (x =? 43)%N; [|destruct (x =? 45)%N].
    + destruct (spanDigits a), (spanDigits b); simpl in Hd; now subst.
    + destruct (spanDigits a), (spanDigits b); simpl in Hd; now subst.
    + destruct (spanDigits (x :: a)), (spanDigits (x :: b));
        simpl in Hfull; now subst.
Qed.

Lemma sim_fractionAndExponent ip p a b :
  sim p a b -> fractionAndExponent ip a = fractionAndExponent ip b.
Proof.
  intros H. unfold fractionAndExponent.
  pose proof (sim_spanDigits H) as [Hd Hr].
  destruct (spanDigits a) as [da ra], (spanDigits b) as [db rb]; simpl in *.
  subst db. now rewrite (sim_exponentPart Hr).
Qed.

Lemma sim_startsWith (pat : str) a b :
  forallb (fun c => negb (c =? 46)%N) pat = true ->
  sim false a b -> startsWith pat a = startsWith pat b.
Proof.
  revert a b. induction pat as [|x pat IH]; intros a b Hp H; [reflexivity|].
  simpl in Hp. apply andb_true_iff in Hp as [Hx Hp].
  inversion H as [p | p c a' b' H' | ]; subst; simpl; [reflexivity|].
  destruct (x =? c)%N eqn:Hxc; [|reflexivity]. simpl.
  apply N.eqb_eq in Hxc. subst c.
  apply negb_true_iff in Hx. rewrite Hx in H'. simpl in H'.
  now apply IH.
Qed.

Lemma sim_strUnsignedDecimalLiteral a b :
  sim false a b ->
  strUnsignedDecimalLiteral a = strUnsignedDecimalLiteral b.
Proof.
  intros H. unfold strUnsignedDecimalLiteral.
  rewrite (sim_startsWith (lit "Infinity") eq_refl H).
  destruct (startsWith (lit "Infinity") b); [reflexivity|].
  pose proof (sim_spanDigits H) as [Hd Hr].
  destruct (spanDigits a) as [da ra], (spanDigits b) as [db rb]; simpl in *.
  subst db.
  inversion Hr as [p | p c a' b' H' | ]; subst; [reflexivity|].
  destruct (c =? 46)%N eqn:Hc.
  - simpl in H'. now rewrite (sim_fractionAndExponent da H').
  - now rewrite (sim_exponentPart Hr).
Qed.

Lemma sim_trimStart a b :
  sim false a b -> sim false (trimStart a) (trimStart b).
Proof.
  intros H. remember false as p eqn:Hp.
  induction H as [p | p c a b H IH | a b H IH]; simpl.
  - constructor.
  - destruct (isWhiteSpace c) eqn:Hw.
    + subst p. assert (Hc : (c =? 46)%N = false).
      { unfold isWhiteSpace in Hw. destruct (c =? 46)%N eqn:E; [|reflexivity]. units. }
      rewrite Hc in IH. now apply IH.
    + now constructor.
  - discriminate.
Qed.

Lemma sim_parseFloat a b : sim false a b -> parseFloat a = parseFloat b.
Proof.
  intros H. unfold parseFloat.
  apply sim_trimStart in H.
  remember (trimStart a) as ta eqn:Ea. remember (trimStart b) as tb eqn:Eb.
  remember false as p eqn:Hp. clear Ea Eb.
  destruct H as [p | p c a' b' H' | a' b' H']; [reflexivity | | discriminate].
  subst p. simpl in H'.
  assert (Hs : sim false (c :: a') (c :: b')) by now constructor.
  destruct (c =? 43)%N eqn:H43; [|destruct (c =? 45)%N eqn:H45].
  - assert (Hc : (c =? 46)%N = false) by (destruct (c =? 46)%N eqn:E; [units|reflexivity]).
    rewrite Hc in H'. now rewrite (sim_strUnsignedDecimalLiteral H').
  - assert (Hc : (c =? 46)%N = false) by (destruct (c =? 46)%N eqn:E; [units|reflexivity]).
    rewrite Hc in H'. now rewrite (sim_strUnsignedDecimalLiteral H').
  - now apply sim_strUnsignedDecimalLiteral.
Qed.

(** Replacing the first comma or every comma by a period gives
    [parseFloat] the same number. *)
Lemma parseFloat_replace_first_every (s : str) :
  parseFloat (replaceFirst 44 46 s) = parseFloat (replaceEvery 44 46 s).
Proof. apply sim_parseFloat, sim_first_every. Qed.

End JsFacts.

(* ===================================================================== *)
(** * The spreadsheet reader: prices and rows *)
(* ===================================================================== *)

Module SheetFacts.
Import Js Sheet JsFacts.

Lemma white_not_kept c : isWhiteSpace c = true -> keptInPrice c = false.
Proof.
  intros H. unfold isWhiteSpace in H. unfold keptInPrice, isDigit.
  destruct ((48 <=? c) && (c <=? 57) || (c =? 46) || (c =? 44) || (c =? 45))%N eqn:E;
    [units | reflexivity].
Qed.

Lemma kept_not_white c : keptInPrice c = true -> isWhiteSpace c = false.
Proof.
  intros H. destruct (isWhiteSpace c) eqn:E; [|reflexivity].
  apply white_not_kept in E. congruence.
Qed.

Lemma replaceFirst_kept (s : str) :
  Forall (fun c => keptInPrice c = true) s ->
  Forall (fun c => keptInPrice c = true) (replaceFirst 44 46 s).
Proof.
  induction 1 as [|c r Hc Hr IH]; simpl; [constructor|].
  destruct (c =? 44)%N; constructor; auto.
Qed.

Lemma cleaned_kept (s : str) : Forall (fun c => keptInPrice c = true) (cleaned s).
Proof.
  apply replaceFirst_kept, Forall_forall. intros c Hc.
  now apply filter_In in Hc.
Qed.

(** The first comma becomes a period and what follows it is untouched. *)
Lemma replaceFirst_split (a b : str) :
  ~ In 44%N a -> replaceFirst 44 46 (a ++ 44%N :: b) = a ++ 46%N :: b.
Proof.
  induction a as [|c a IH]; intros Ha; simpl; [reflexivity|].
  destruct (c =? 44)%N eqn:Hc.
  - apply N.eqb_eq in Hc. subst c. exfalso. apply Ha. now left.
  - f_equal. apply IH. intros Hin. apply Ha. now right.
Qed.

Lemma strUnsignedDecimalLiteral_reduced s : reduced (strUnsignedDecimalLiteral s).
Proof.
  unfold strUnsignedDecimalLiteral, fractionAndExponent.
  destruct (startsWith _ s); [exact I|].
  destruct (spanDigits s) as [ip [|c r]].
  - destruct ip; simpl; [exact I | apply Qcanon.Qred_involutive].
  - destruct (c =? 46)%N.
    + destruct (spanDigits r) as [fp t].
      destruct ip, fp; simpl; try exact I; apply Qcanon.Qred_involutive.
    + destruct ip; simpl; [exact I | apply Qcanon.Qred_involutive].
Qed.

Lemma parseFloat_reduced s : reduced (parseFloat s).
Proof.
  unfold parseFloat. destruct (trimStart s) as [|c r]; [exact I|].
  destruct (c =? 43)%N; [apply strUnsignedDecimalLiteral_reduced|].
  destruct (c =? 45)%N; [|apply strUnsignedDecimalLiteral_reduced].
  destruct (strUnsignedDecimalLiteral r); unfold neg, reduced; try exact I.
  apply Qcanon.Qred_involutive.
Qed.

Lemma reduced_zero q : Qred q = q -> q == 0 -> q = 0.
Proof.
  intros Hr Hz. rewrite <- Hr. now rewrite (Qred_complete _ _ Hz).
Qed.

Lemma orZero_default (n : num) :
  reduced n -> orZero n = zeroIfUnparsable n.
Proof.
  destruct n as [| b | q]; simpl; intros Hr; try reflexivity.
  unfold orZero. simpl. destruct (Qeq_bool q 0) eqn:E; [|reflexivity].
  apply Qeq_bool_iff in E. simpl. now rewrite (reduced_zero Hr E).
Qed.

Lemma decimal_nonneg ip fp e : 0 <= decimal ip fp e.
Proof.
  unfold decimal. rewrite Qred_correct.
  apply Qmult_le_0_compat.
  - unfold Qle. simpl. lia.
  - apply Qpower.Qpower_0_le. unfold Qle. simpl. lia.
Qed.

Lemma strUnsignedDecimalLiteral_sign s :
  strUnsignedDecimalLiteral s = NaN \/ nonNegative (strUnsignedDecimalLiteral s).
Proof.
  unfold strUnsignedDecimalLiteral, fractionAndExponent.
  destruct (startsWith _ s); [right; reflexivity|].
  destruct (spanDigits s) as [ip [|c r]].
  - destruct ip; [now left | right; apply decimal_nonneg].
  - destruct (c =? 46)%N.
    + destruct (spanDigits r) as [fp t].
      destruct ip, fp; simpl; try (now left); right; apply decimal_nonneg.
    + destruct ip; [now left | right; apply decimal_nonneg].
Qed.

Lemma orZero_nonneg n : n = NaN \/ nonNegative n -> nonNegative (orZero n).
Proof.
  intros [-> | H]; [unfold orZero; simpl; apply Qle_refl|].
  unfold orZero. destruct (truthy_num n); [exact H | simpl; apply Qle_refl].
Qed.

Lemma orZero_number n : orZero n <> NaN.
Proof. unfold orZero. destruct n; simpl; try discriminate. destruct (Qeq_bool q 0); discriminate. Qed.

Lemma filter_map_swap {A B} (f : B -> bool) (g : A -> B) (l : list A) :
  filter f (map g l) = map g (filter (fun x => f (g x)) l).
Proof.
  induction l as [|x l IH]; simpl; [reflexivity|].
  destruct (f (g x)); simpl; now rewrite IH.
Qed.

Lemma priceOf_string_spec (s : str) : priceOf (CStr s) = spec_priceOfString s.
Proof.
  unfold priceOf, spec_priceOfString, cleaned.
  rewrite (trim_filter keptInPrice s white_not_kept).
  rewrite parseFloat_replace_first_every.
  apply orZero_default, parseFloat_reduced.
Qed.

(** C3. A numeric price cell is used as it is.  A string price cell has
    every code unit that is not a digit, comma, period or minus sign
    removed, comma replaced by period, and the result parsed as a float,
    with 0 for an unparsable result: the price computed by the source
    equals the rule written after the specification, for every string.
    In particular " $5,50 " gives 5.50 (the fraction 11/2) and "abc"
    gives 0. *)
Theorem price_cell_rule :
  (forall n, priceOf (CNum n) = n)
  /\ (forall s, priceOf (CStr s) = spec_priceOfString s)
  /\ (forall s, parseFloat (cleaned s) = NaN -> priceOf (CStr s) = Fin 0)
  /\ priceOf (CStr (lit " $5,50 ")) = Fin (11 # 2)
  /\ priceOf (CStr (lit "abc")) = Fin 0.
Proof.
  split; [reflexivity|].
  split; [exact priceOf_string_spec|].
  split; [|split; reflexivity].
  intros s H. unfold priceOf. now rewrite H.
Qed.

Lemma price_cell_rule_witness : priceOf (CStr (lit "n/a")) = Fin 0.
Proof.
  apply (proj1 (proj2 (proj2 price_cell_rule)) (lit "n/a")). reflexivity.
Defined.

(** C10. The comma replacement of the price clean-up touches the first
    comma only: when the stripped string is [a], a comma, then [b], with
    no comma in [a], the string handed to [parseFloat] is [a], a period,
    then [b] unchanged, so the later commas are still there.  The cleaned
    form of "1,234,56" is "1.234,56", which parses to 1.234. *)
Theorem price_first_comma_only :
  (forall s a b,
      filter keptInPrice (trim s) = a ++ 44%N :: b -> ~ In 44%N a ->
      cleaned s = a ++ 46%N :: b)
  /\ cleaned (lit "1,234,56") = lit "1.234,56"
  /\ priceOf (CStr (lit "1,234,56")) = Fin (617 # 500).
Proof.
  split; [|split; reflexivity].
  intros s a b Hs Ha. unfold cleaned. rewrite Hs. now apply replaceFirst_split.
Qed.

Lemma price_first_comma_only_witness :
  cleaned (lit "1,2,3") = lit "1" ++ 46%N :: lit "2,3".
Proof.
  apply (proj1 price_first_comma_only (lit "1,2,3") (lit "1") (lit "2,3")).
  - reflexivity.
  - simpl. intros [H | []]. discriminate H.
Defined.

Lemma orZero_neg_sign (n : num) :
  n = NaN \/ nonNegative n ->
  (belowZero (orZero (neg n)) <-> aboveZero n)
  /\ (~ aboveZero n -> orZero (neg n) = Fin 0).
Proof.
  intros [-> | Hn].
  { simpl. split; [split; [intros H; discriminate H | intros []] | reflexivity]. }
  destruct n as [| b | q]; simpl in Hn; [contradiction | subst b |].
  - split; [split; reflexivity|]. intros H. now elim H.
  - unfold neg, orZero, truthy_num.
    destruct (Qeq_bool (Qred (- q)) 0) eqn:E; cbn [negb belowZero aboveZero].
    + apply Qeq_bool_iff in E. rewrite Qred_correct in E.
      assert (Hq : q == 0).
      { rewrite <- (Qopp_involutive q), E. reflexivity. }
      split; [|reflexivity].
      split; [intros H; discriminate H|].
      intros H. rewrite Hq in H. discriminate H.
    + assert (Hne : ~ q == 0).
      { intros Hq. apply Qeq_bool_neq in E. apply E.
        rewrite Qred_correct, Hq. reflexivity. }
      assert (Hpos : 0 < q).
      { apply Qle_lt_or_eq in Hn as [H | H]; [exact H | now elim Hne]. }
      split; [|intros H; now elim H].
      split; [intros _; exact Hpos|].
      intros _. rewrite Qred_correct.
      apply (Qopp_lt_compat 0 q) in Hpos. exact Hpos.
Qed.

(** C7, as the source has it. The price of a string cell is always a
    number, and 0 when the cleaned string is unparsable; it is not below
    zero whenever the cleaned string does not begin with a minus sign.
    The minus sign is kept by the clean-up: when the cleaned string
    begins with one, the price is below zero exactly when what follows
    the sign parses to a number above zero, and is 0 otherwise (so "-5"
    gives -5, while "-0", "-" and "--5" give 0). *)
Theorem price_string_sign (s : str) :
  priceOf (CStr s) <> NaN
  /\ (parseFloat (cleaned s) = NaN -> priceOf (CStr s) = Fin 0)
  /\ (hd_error (cleaned s) <> Some 45%N -> nonNegative (priceOf (CStr s)))
  /\ (forall rest, cleaned s = 45%N :: rest ->
        (belowZero (priceOf (CStr s)) <-> aboveZero (strUnsignedDecimalLiteral rest))
        /\ (~ aboveZero (strUnsignedDecimalLiteral rest) -> priceOf (CStr s) = Fin 0)).
Proof.
  split; [apply orZero_number|].
  split; [intros H; unfold priceOf; now rewrite H|].
  split.
  - intros Hhd. unfold priceOf. apply orZero_nonneg.
    pose proof (cleaned_kept s) as Hk.
    unfold parseFloat.
    destruct (cleaned s) as [|c r] eqn:Ec; [now left|].
    inversion Hk as [|? ? Hc Hr]; subst.
    rewrite trimStart_id by (now apply kept_not_white).
    destruct (c =? 43)%N; [apply strUnsignedDecimalLiteral_sign|].
    destruct (c =? 45)%N eqn:E; [|apply strUnsignedDecimalLiteral_sign].
    apply N.eqb_eq in E. subst c. now elim Hhd.
  - intros rest Hc. unfold priceOf. rewrite Hc.
    change (parseFloat (45%N :: rest)) with (neg (strUnsignedDecimalLiteral rest)).
    apply orZero_neg_sign, strUnsignedDecimalLiteral_sign.
Qed.

Lemma price_string_sign_witness :
  nonNegative (priceOf (CStr (lit "$ 3,75"))).
Proof.
  apply (proj2 (proj2 (price_string_sign (lit "$ 3,75")))).
  vm_compute. discriminate.
Defined.

(** C7, as stated, fails: the price of the string "-5" is -5. *)
Lemma price_string_negative :
  priceOf (CStr (lit "-5")) = Fin (-5 # 1)
  /\ ~ nonNegative (priceOf (CStr (lit "-5"))).
Proof.
  split; [reflexivity|].
  vm_compute. intros H. apply H. reflexivity.
Qed.

Section RowFacts.
Variable numberToString : num -> str.

Lemma keepProduct_rowToProduct (r : row) :
  keepProduct (rowToProduct numberToString r) = negb (rowIsBlank numberToString r).
Proof.
  unfold keepProduct, rowIsBlank, rowToProduct. simpl.
  destruct (trim (toStr numberToString (nth 0 r CUndefined)));
    destruct (trim (toStr numberToString (nth 1 r CUndefined)));
    destruct (trim (toStr numberToString (nth 3 r CUndefined))); reflexivity.
Qed.

Lemma productsOfRows_filter (rows : list row) :
  productsOfRows numberToString rows
  = map (rowToProduct numberToString)
        (filter (fun r => negb (rowIsBlank numberToString r)) rows).
Proof.
  unfold productsOfRows. rewrite filter_map_swap. f_equal.
  apply filter_ext. intros r. apply keepProduct_rowToProduct.
Qed.

End RowFacts.

(** C6. For every sequence of rows, the result of the row-to-record
    mapping is the records of exactly the rows that are not blank, in
    order (a row is blank when its image, name and description are all
    empty once normalised); every record of the result has its three
    text fields trimmed and at least one of name, image, description
    non-empty. *)
Theorem products_drop_blank_rows (numberToString : num -> str) (rows : list row) :
  productsOfRows numberToString rows
  = map (rowToProduct numberToString)
        (filter (fun r => negb (rowIsBlank numberToString r)) rows)
  /\ (forall p, In p (productsOfRows numberToString rows) ->
        (trim (name p) = name p /\ trim (image p) = image p
         /\ trim (description p) = description p)
        /\ (trim (name p) <> [] \/ trim (image p) <> []
            \/ trim (description p) <> [])).
Proof.
  split; [apply productsOfRows_filter|].
  intros p Hp. unfold productsOfRows in Hp. apply filter_In in Hp as [Hin Hk].
  assert (Ht : trim (name p) = name p /\ trim (image p) = image p
               /\ trim (description p) = description p).
  { apply in_map_iff in Hin as [r [<- _]]. simpl.
    repeat split; apply trim_idempotent. }
  split; [exact Ht|].
  destruct Ht as [-> [-> ->]].
  unfold keepProduct in Hk.
  destruct (name p); [|left; discriminate].
  destruct (image p); [|right; left; discriminate].
  destruct (description p); [discriminate | right; right; discriminate].
Qed.

Lemma products_drop_blank_rows_witness :
  trim (name latte) <> [] \/ trim (image latte) <> []
  \/ trim (description latte) <> [].
Proof.
  apply (proj2 (products_drop_blank_rows (fun _ => lit "3") sampleRows) latte).
  simpl. left. reflexivity.
Defined.

End SheetFacts.

(* ===================================================================== *)
(** * The product cache *)
(* ===================================================================== *)

Module ProductsFacts.
Import Js Sheet Eff Products.

(** The credentials step touches neither the heap nor the cache. *)
Lemma getSheetsClient_frame env w s :
  heap (snd (getSheetsClient env w s)) = heap s
  /\ productsCache (snd (getSheetsClient env w s)) = productsCache s.
Proof.
  unfold getSheetsClient.
  destruct (negb (truthy_str (orEmpty (GOOGLE_SA_KEY_BASE64 env)))); run; [auto|].
  destruct (parseKey w _) as [e | json]; simpl; [auto|].
  destruct (negb (truthy_str _)); simpl; [auto|].
  destruct (getClient w); simpl; auto.
Qed.

(** A failed read leaves the heap and the cache as they were. *)
Lemma fetchProductsFromSheet_throw env w s e s1 :
  fetchProductsFromSheet env w s = (Throw e, s1) ->
  heap s1 = heap s /\ productsCache s1 = productsCache s.
Proof.
  unfold fetchProductsFromSheet. run.
  destruct (negb (truthy_str (orEmpty (SHEET_ID env)))); simpl.
  - intros [= _ <-]. simpl. auto.
  - match goal with |- context [getSheetsClient env w ?s0] =>
      pose proof (getSheetsClient_frame env w s0) as [Hh Hc];
      destruct (getSheetsClient env w s0) as [[a | e'] s2]
    end; simpl in *.
    + destruct (valuesGet w) as [e' | values]; simpl.
      * intros [= _ <-]. simpl. auto.
      * discriminate.
    + intros [= _ <-]. auto.
Qed.

(** A successful read allocates one new array and leaves the cache to
    its caller. *)
Lemma fetchProductsFromSheet_ret env w s d s1 :
  fetchProductsFromSheet env w s = (Ret d, s1) ->
  d = List.length (heap s)
  /\ (exists a, heap s1 = heap s ++ [a])
  /\ productsCache s1 = productsCache s.
Proof.
  unfold fetchProductsFromSheet. run.
  destruct (negb (truthy_str (orEmpty (SHEET_ID env)))); simpl; [discriminate|].
  match goal with |- context [getSheetsClient env w ?s0] =>
    pose proof (getSheetsClient_frame env w s0) as [Hh Hc];
    destruct (getSheetsClient env w s0) as [[a | e'] s2]
  end; simpl in *; [|discriminate].
  destruct (valuesGet w) as [e' | values]; simpl; [discriminate|].
  intros [= <- <-]. simpl. rewrite Hh. eauto.
Qed.

(** The reader is entered by announcing itself on the trace. *)
Lemma fetchProductsFromSheet_trace env w s :
  exists t, trace (snd (fetchProductsFromSheet env w s))
            = trace s ++ CallFetchProductsFromSheet :: t.
Proof.
  assert (Hc : forall s0, exists t, trace (snd (getSheetsClient env w s0)) = trace s0 ++ t).
  { intros s0. unfold getSheetsClient.
    destruct (negb (truthy_str (orEmpty (GOOGLE_SA_KEY_BASE64 env)))); run;
      [exists []; now rewrite app_nil_r|].
    destruct (parseKey w _) as [e | json]; simpl; [exists []; now rewrite app_nil_r|].
    destruct (negb (truthy_str _)); simpl; [exists []; now rewrite app_nil_r|].
    destruct (getClient w); simpl; eauto. }
  unfold fetchProductsFromSheet. run.
  destruct (negb (truthy_str (orEmpty (SHEET_ID env)))); simpl; [eauto|].
  match goal with |- context [getSheetsClient env w ?s0] =>
    destruct (Hc s0) as [t Ht];
    destruct (getSheetsClient env w s0) as [[a | e'] s2]
  end; simpl in *.
  - destruct (valuesGet w) as [e' | values]; simpl; rewrite Ht, <- !app_assoc; simpl; eauto.
  - rewrite Ht, <- !app_assoc. simpl. eauto.
Qed.

(** C2. When the cache holds the array [d] of an earlier success and
    [now - ts] is below the time to live, [getProducts] returns [d]
    itself and the server is exactly as before: the array stored at [d],
    the cache entry and the trace are unchanged, so the reader was not
    called. *)
Theorem getProducts_cache_hit env now w s d :
  data (productsCache s) = Some d ->
  lt (Fin (inject_Z (now - ts (productsCache s)))) (PRODUCTS_CACHE_TTL_MS env) = true ->
  getProducts env now w s = (Ret d, s)
  /\ ~ In CallFetchProductsFromSheet (newEvents s (snd (getProducts env now w s))).
Proof.
  intros Hd Hlt.
  assert (E : getProducts env now w s = (Ret d, s)).
  { unfold getProducts. run. unfold freshData. now rewrite Hd, Hlt. }
  split; [exact E|].
  rewrite E. unfold newEvents. simpl. rewrite skipn_all. intros [].
Qed.

Lemma getProducts_cache_hit_witness :
  getProducts sampleEnv 30000 downWorld warmServer = (Ret 0%nat, warmServer).
Proof.
  apply (getProducts_cache_hit sampleEnv 30000 downWorld warmServer (d := 0%nat));
    reflexivity.
Defined.

(** With a stale or empty cache the reader is called. *)
Lemma getProducts_refresh_calls_reader env now w s :
  freshData env now (productsCache s) = None ->
  In CallFetchProductsFromSheet (trace (snd (getProducts env now w s))).
Proof.
  intros Hf. unfold getProducts, dataOrEmpty. run. rewrite Hf.
  destruct (fetchProductsFromSheet_trace env w s) as [t Ht].
  destruct (fetchProductsFromSheet env w s) as [[d | e] s1] eqn:E; simpl in *.
  - rewrite Ht. apply in_or_app. right. now left.
  - destruct (data (productsCache s1)); simpl;
      rewrite Ht; apply in_or_app; left; apply in_or_app; right; now left.
Qed.

(** C1. When the read of the sheet fails, [getProducts] returns normally
    and the cache entry (array and timestamp) is as before.  With an
    earlier success stored, the value returned is the stored array [d]
    itself, whose content is unchanged; with none, it is a new empty
    array. *)
Theorem getProducts_fetch_failure env now w s e s1 :
  freshData env now (productsCache s) = None ->
  fetchProductsFromSheet env w s = (Throw e, s1) ->
  exists r s',
    getProducts env now w s = (Ret r, s')
    /\ productsCache s' = productsCache s
    /\ (forall d, data (productsCache s) = Some d ->
          r = d /\ heap s' = heap s)
    /\ (data (productsCache s) = None ->
          nth_error (heap s') r = Some [] /\ heap s' = heap s ++ [[]]).
Proof.
  intros Hf Hfetch.
  destruct (fetchProductsFromSheet_throw _ _ _ Hfetch) as [Hh Hc].
  unfold getProducts, dataOrEmpty. run. rewrite Hf, Hfetch. simpl.
  rewrite Hc. destruct (data (productsCache s)) as [d|] eqn:Hd; simpl.
  - exists d. eexists. split; [reflexivity|]. simpl.
    split; [reflexivity|]. split; [|discriminate].
    intros d' [= <-]. split; [reflexivity | exact Hh].
  - exists (List.length (heap s1)). eexists. split; [reflexivity|]. simpl.
    split; [reflexivity|]. split; [discriminate|].
    intros _. rewrite Hh. split; [|reflexivity].
    rewrite nth_error_app2 by lia. now rewrite Nat.sub_diag.
Qed.

Lemma getProducts_fetch_failure_witness :
  exists r s',
    getProducts sampleEnv 61000 downWorld warmServer = (Ret r, s')
    /\ productsCache s' = productsCache warmServer
    /\ (forall d, data (productsCache warmServer) = Some d ->
          r = d /\ heap s' = heap warmServer)
    /\ (data (productsCache warmServer) = None ->
          nth_error (heap s') r = Some [] /\ heap s' = heap warmServer ++ [[]]).
Proof.
  eapply (getProducts_fetch_failure sampleEnv 61000 downWorld warmServer);
    reflexivity.
Defined.

End ProductsFacts.

(* ===================================================================== *)
(** * The image listing *)
(* ===================================================================== *)

Module ImagesFacts.
Import Js Eff Images JsFacts.

Lemma canonicalize_lower x y :
  isLower y = true ->
  (canonicalize x =? canonicalize y)%N = (toLower x =? y)%N.
Proof.
  intros Hy. unfold isLower in Hy. unfold canonicalize, toLower.
  rewrite Hy. apply andb_true_iff in Hy as [Hy1 Hy2].
  apply N.leb_le in Hy1, Hy2.
  destruct ((97 <=? x) && (x <=? 122))%N eqn:Hx;
    destruct ((65 <=? x) && (x <=? 90))%N eqn:Hu;
    destruct (_ =? _)%N eqn:E1; symmetry;
    destruct (_ =? y)%N eqn:E2; try reflexivity; units.
Qed.

Lemma str_eqb_cons x y (a b : str) :
  str_eqb (x :: a) (y :: b) = (x =? y)%N && str_eqb a b.
Proof.
  unfold str_eqb.
  destruct (list_eq_dec N.eq_dec (x :: a) (y :: b)) as [E | E].
  - injection E as -> ->. rewrite N.eqb_refl.
    destruct (list_eq_dec N.eq_dec b b); [reflexivity | congruence].
  - destruct (x =? y)%N eqn:Hxy; [|reflexivity]. apply N.eqb_eq in Hxy. subst.
    destruct (list_eq_dec N.eq_dec a b); [congruence | reflexivity].
Qed.

Lemma eqIgnoreCase_lower (r alt : str) :
  forallb isLower alt = true ->
  eqIgnoreCase r alt = str_eqb (map toLower r) alt.
Proof.
  revert alt. induction r as [|x r IH]; intros [|y alt] Ha; simpl; try reflexivity.
  simpl in Ha. apply andb_true_iff in Ha as [Hy Ha].
  now rewrite str_eqb_cons, (canonicalize_lower x y Hy), IH.
Qed.

Lemma eqIgnoreCase_noPeriod (r alt : str) :
  forallb isLower alt = true -> eqIgnoreCase r alt = true -> noPeriod r = true.
Proof.
  revert alt. induction r as [|x r IH]; intros [|y alt] Ha; simpl; try discriminate;
    [reflexivity|].
  simpl in Ha. apply andb_true_iff in Ha as [Hy Ha].
  intros H. apply andb_true_iff in H as [Hxy H].
  rewrite (IH alt Ha H), andb_true_r.
  rewrite (canonicalize_lower x y Hy) in Hxy. unfold toLower, isLower in *.
  destruct (x =? 46)%N eqn:E; [|reflexivity].
  destruct ((65 <=? x) && (x <=? 90))%N eqn:Hu; units.
Qed.

Lemma alternatives_lower : forallb (forallb isLower) alternatives = true.
Proof. reflexivity. Qed.

Lemma extension_noPeriod (s : str) : noPeriod s = true -> extension s = None.
Proof.
  induction s as [|c r IH]; simpl; [reflexivity|].
  intros H. apply andb_true_iff in H as [Hc Hr]. rewrite (IH Hr).
  apply negb_true_iff in Hc. now rewrite Hc.
Qed.

Lemma existsb_alternatives (r : str) :
  existsb (eqIgnoreCase r) alternatives
  = existsb (str_eqb (map toLower r)) alternatives.
Proof.
  pose proof alternatives_lower as Hl.
  induction alternatives as [|alt l IH]; simpl in *; [reflexivity|].
  apply andb_true_iff in Hl as [Ha Hl].
  now rewrite (eqIgnoreCase_lower r alt Ha), (IH Hl).
Qed.

Lemma existsb_alternatives_noPeriod (r : str) :
  existsb (eqIgnoreCase r) alternatives = true -> noPeriod r = true.
Proof.
  pose proof alternatives_lower as Hl.
  induction alternatives as [|alt l IH]; simpl in *; [discriminate|].
  apply andb_true_iff in Hl as [Ha Hl].
  intros H. apply orb_true_iff in H as [H | H].
  - exact (eqIgnoreCase_noPeriod r alt Ha H).
  - exact (IH Hl H).
Qed.

(** The regular expression accepts a name exactly when the text after
    its last period is an allowed extension, whatever the case. *)
Lemma test_allowedExtension (name : str) : test name = allowedExtension name.
Proof.
  unfold allowedExtension.
  induction name as [|c r IH]; [reflexivity|].
  change (test (c :: r))
    with ((c =? 46)%N && existsb (eqIgnoreCase r) alternatives || test r).
  change (extension (c :: r))
    with (match extension r with
          | Some e => Some e
          | None => if (c =? 46)%N then Some r else None
          end).
  destruct (extension r) as [e|] eqn:He.
  - rewrite IH.
    destruct ((c =? 46)%N && existsb (eqIgnoreCase r) alternatives) eqn:Hm;
      [|reflexivity].
    apply andb_true_iff in Hm as [_ Hm].
    apply existsb_alternatives_noPeriod, extension_noPeriod in Hm. congruence.
  - rewrite IH, orb_false_r.
    destruct (c =? 46)%N; [apply existsb_alternatives | reflexivity].
Qed.

Lemma filter_filter_map {A B} (f : A -> bool) (g : B -> bool) (h : A -> B) (l : list A) :
  filter g (map h (filter f l)) = map h (filter (fun x => f x && g (h x)) l).
Proof.
  induction l as [|x l IH]; simpl; [reflexivity|].
  destruct (f x); simpl; [|exact IH].
  destruct (g (h x)); simpl; now rewrite IH.
Qed.

(** C8. [GET /images] never fails: it answers with status 200, no-store,
    and as its JSON body the listing of the specification: the names of
    the entries that are regular files and whose extension is in the
    allow-list whatever its case, in the order of enumeration, and the
    empty list when the folder does not exist (or cannot be read).  For
    a folder holding a.png, b.txt and C.JPG the handler answers a.png,
    C.JPG; for a folder that does not exist it answers the empty
    list. *)
Theorem getImages_listing :
  (forall folder t,
      exists t',
        getImages folder t
        = (Ret {| status := 200; cacheControl := Some "no-store"%string;
                  json := spec_listImages folder |}, t'))
  /\ (forall folder t,
        existsSync folder = false ->
        exists t',
          getImages folder t
          = (Ret {| status := 200; cacheControl := Some "no-store"%string;
                    json := [] |}, t'))
  /\ (forall folder files t,
        existsSync folder = true -> readdir folder = inr files ->
        exists t',
          getImages folder t
          = (Ret {| status := 200; cacheControl := Some "no-store"%string;
                    json := map d_name
                              (filter (fun f => isFile f
                                                && allowedExtension (d_name f))
                                      files) |}, t'))
  /\ fst (getImages
             {| existsSync := true;
                readdir := inr [ {| d_name := lit "a.png"; isFile := true |};
                                 {| d_name := lit "b.txt"; isFile := true |};
                                 {| d_name := lit "C.JPG"; isFile := true |} ] |} [])
     = Ret {| status := 200; cacheControl := Some "no-store"%string;
              json := [lit "a.png"; lit "C.JPG"] |}.
Proof.
  assert (H : forall folder t,
      exists t',
        getImages folder t
        = (Ret {| status := 200; cacheControl := Some "no-store"%string;
                  json := spec_listImages folder |}, t')).
  { intros folder t. unfold getImages, spec_listImages, send.
    unfold bind, tryCatch, ofResult, modify, ret, throw. simpl.
    destruct (existsSync folder); simpl; [|eauto].
    destruct (readdir folder) as [e | files]; simpl; [eauto|].
    rewrite filter_filter_map.
    erewrite (filter_ext (fun x => isFile x && test (d_name x))); [eauto|].
    intros f. now rewrite test_allowedExtension. }
  split; [exact H|]. split; [|split].
  - intros folder t He. destruct (H folder t) as [t' E]. exists t'.
    rewrite E. unfold spec_listImages. now rewrite He.
  - intros folder files t He Hr. destruct (H folder t) as [t' E]. exists t'.
    rewrite E. unfold spec_listImages. now rewrite He, Hr.
  - reflexivity.
Qed.

Lemma getImages_listing_witness :
  exists t',
    getImages {| existsSync := false; readdir := inl (Error "ENOENT") |} []
    = (Ret {| status := 200; cacheControl := Some "no-store"%string; json := [] |},
       t').
Proof.
  apply (proj1 (proj2 getImages_listing)
           {| existsSync := false; readdir := inl (Error "ENOENT") |} []).
  reflexivity.
Defined.

End ImagesFacts.

(* ===================================================================== *)
(** * The image proxy *)
(* ===================================================================== *)

Module ProxyFacts.
Import Js Eff Proxy.

(** C9, as the source has it. The identifier is trimmed first.  When the
    trimmed identifier does not match the pattern, the answer is 400
    "bad id" and nothing is fetched.  When it matches, one fetch of the
    Drive URL is made: a response that is not ok gives 502 "upstream
    error"; an ok response whose body can be read is passed through with
    the upstream content type, or image/jpeg when there is none, and a
    one-day cache instruction. *)
Theorem getImg_outcomes (param : str) upstream (c : Conn) :
  (validId (trim param) = false ->
     getImg param upstream c
     = (Ret tt,
        {| res := {| statusCode := 400; headers := headers (res c);
                     sent := Some (Text "bad id") |};
           trace := trace c |}))
  /\ (forall r,
        validId (trim param) = true ->
        upstream (driveUrl (trim param)) = inr r -> ok r = false ->
        getImg param upstream c
        = (Ret tt,
           {| res := {| statusCode := 502; headers := headers (res c);
                        sent := Some (Text "upstream error") |};
              trace := trace c ++ [HttpFetch (driveUrl (trim param));
                                   ConsoleError "[img] fetch failed:"] |}))
  /\ (forall r buf,
        validId (trim param) = true ->
        upstream (driveUrl (trim param)) = inr r -> ok r = true ->
        arrayBuffer r = inr buf ->
        getImg param upstream c
        = (Ret tt,
           {| res := {| statusCode := statusCode (res c);
                        headers := headers (res c)
                          ++ [("Content-Type"%string,
                               match contentType r with
                               | Some (x :: ct) => x :: ct
                               | _ => lit "image/jpeg"
                               end);
                              ("Cache-Control"%string, lit "public, max-age=86400")];
                        sent := Some (Binary buf) |};
              trace := trace c ++ [HttpFetch (driveUrl (trim param))] |})).
Proof.
  split; [|split].
  - intros Hv. run. rewrite Hv. reflexivity.
  - intros r Hv Hu Hok. run. rewrite Hv. simpl. rewrite Hu. simpl.
    rewrite Hok. simpl. now rewrite <- app_assoc.
  - intros r buf Hv Hu Hok Hbuf. run. rewrite Hv. simpl. rewrite Hu. simpl.
    rewrite Hok. simpl. rewrite Hbuf. simpl.
    rewrite <- app_assoc. simpl.
    destruct (contentType r) as [[|x ct]|]; reflexivity.
Qed.

Lemma getImg_outcomes_witness :
  getImg (lit "bad id!") (fun _ => inl (Error "unreachable")) freshConn
  = (Ret tt,
     {| res := {| statusCode := 400; headers := [];
                  sent := Some (Text "bad id") |};
        trace := [] |}).
Proof.
  apply (proj1 (getImg_outcomes (lit "bad id!") (fun _ => inl (Error "unreachable"))
                                freshConn)).
  reflexivity.
Defined.

(** C9, as stated, fails: an identifier with a leading space does not
    match the pattern, and yet it is fetched and served. *)
Lemma getImg_untrimmed_id :
  validId (lit " abcdefghij") = false
  /\ getImg (lit " abcdefghij") servesPng freshConn
     = (Ret tt,
        {| res := {| statusCode := 200;
                     headers := [("Content-Type"%string, lit "image/png");
                                 ("Cache-Control"%string, lit "public, max-age=86400")];
                     sent := Some (Binary [137; 80; 78; 71]%N) |};
           trace := [HttpFetch (driveUrl (lit "abcdefghij"))] |}).
Proof. split; reflexivity. Qed.

End ProxyFacts.

(* ===================================================================== *)
(** * The watcher and the notification of clients *)
(* ===================================================================== *)

Module NotifyFacts.
Import Js Eff Notify.

Lemma broadcasts_app (t u : list event) :
  broadcasts (t ++ u) = (broadcasts t + broadcasts u)%nat.
Proof. unfold broadcasts. now rewrite filter_app, length_app. Qed.

(** C4, as the source has it. A change notification whose file name is a
    non-empty string produces exactly one broadcast; one whose file name
    is null or empty produces none and leaves the trace untouched,
    whatever the notifier.  The event type plays no part. *)
Theorem watch_event_broadcasts (eventType : str) (filename : option str)
        (t : list event) :
  fst (SocketIO.watchCallback eventType filename t) = Ret tt
  /\ broadcasts (snd (SocketIO.watchCallback eventType filename t))
     = (broadcasts t + (if truthy_str (orEmpty filename) then 1 else 0))%nat
  /\ (forall notifyClients,
        truthy_str (orEmpty filename) = false ->
        onChange notifyClients eventType filename t = (Ret tt, t))
  /\ (forall notifyClients,
        truthy_str (orEmpty filename) = true ->
        onChange notifyClients eventType filename t
        = notifyClients (t ++ [ConsoleLog "[watch] change detected"])).
Proof.
  unfold SocketIO.watchCallback, SocketIO.notifyClients, onChange, log, bind, modify, ret.
  destruct (truthy_str (orEmpty filename)); simpl.
  - rewrite !broadcasts_app. repeat split; try discriminate.
    unfold broadcasts. simpl. lia.
  - repeat split; try discriminate. lia.
Qed.

Lemma watch_event_broadcasts_witness :
  onChange SocketIO.notifyClients (lit "rename") None [] = (Ret tt, []).
Proof.
  apply (proj1 (proj2 (proj2 (watch_event_broadcasts (lit "rename") None [])))).
  reflexivity.
Defined.

(** C4, as stated, fails: a notification that carries no file name
    produces no broadcast. *)
Lemma watch_event_without_filename :
  SocketIO.watchCallback (lit "change") None [] = (Ret tt, [])
  /\ broadcasts (snd (SocketIO.watchCallback (lit "change") None [])) <> 1%nat.
Proof. split; [reflexivity | discriminate]. Qed.

(** ** The loop over the clients *)

Lemma notifyClients_all_sent sendResult (clients : list Ws.Client) (t : list event) :
  (forall c, In c clients -> Ws.isOpen c = true -> sendResult (Ws.cid c) = inr tt) ->
  Ws.notifyClients sendResult clients t
  = (Ret tt, t ++ updatesFor (filter Ws.isOpen clients)).
Proof.
  unfold Ws.notifyClients, updatesFor.
  revert t. induction clients as [|c l IH]; intros t Hok; simpl.
  - now rewrite app_nil_r.
  - unfold bind at 1.
    destruct (Ws.isOpen c) eqn:Ho; simpl.
    + unfold Ws.send, bind, ofResult, log, modify, ret.
      rewrite (Hok c (or_introl eq_refl) Ho). simpl.
      rewrite IH by (intros x Hx; apply Hok; now right).
      now rewrite <- app_assoc.
    + apply IH. intros x Hx. apply Hok. now right.
Qed.

Lemma sentTo_updatesFor k (l : list Ws.Client) :
  NoDup (map Ws.cid l) ->
  sentTo k (updatesFor l)
  = if existsb (fun c => Nat.eqb (Ws.cid c) k) l then ["update"%string] else [].
Proof.
  unfold sentTo, updatesFor.
  induction l as [|c l IH]; simpl; intros Hnd; [reflexivity|].
  inversion Hnd as [|? ? Hnotin Hnd']; subst.
  rewrite (IH Hnd').
  destruct (Nat.eqb (Ws.cid c) k) eqn:E; simpl; [|reflexivity].
  apply Nat.eqb_eq in E. subst k.
  destruct (existsb _ l) eqn:Ex; [|reflexivity].
  apply existsb_exists in Ex as [x [Hx Heq]]. apply Nat.eqb_eq in Heq.
  exfalso. apply Hnotin. rewrite <- Heq. now apply in_map.
Qed.

Lemma NoDup_cid_filter (f : Ws.Client -> bool) (l : list Ws.Client) :
  NoDup (map Ws.cid l) -> NoDup (map Ws.cid (filter f l)).
Proof.
  induction l as [|c l IH]; simpl; intros Hnd; [constructor|].
  inversion Hnd as [|? ? Hnotin Hnd']; subst.
  destruct (f c); simpl; [|now apply IH].
  constructor; [|now apply IH].
  intros Hin. apply Hnotin. apply in_map_iff in Hin as [x [Hx Hin]].
  apply filter_In in Hin as [Hin _]. rewrite <- Hx. now apply in_map.
Qed.

Lemma open_client_found (l : list Ws.Client) c :
  NoDup (map Ws.cid l) -> In c l ->
  existsb (fun x => Nat.eqb (Ws.cid x) (Ws.cid c)) (filter Ws.isOpen l) = Ws.isOpen c.
Proof.
  intros Hnd Hin.
  destruct (existsb _ _) eqn:Ex.
  - apply existsb_exists in Ex as [x [Hx Heq]]. apply Nat.eqb_eq in Heq.
    apply filter_In in Hx as [Hx Ho].
    assert (x = c); [|now subst].
    clear Ho. induction l as [|y l IH]; [contradiction|].
    inversion Hnd as [|? ? Hnotin Hnd']; subst.
    destruct Hx as [-> | Hx], Hin as [-> | Hin]; auto.
    + exfalso. apply Hnotin. rewrite Heq. now apply in_map.
    + exfalso. apply Hnotin. rewrite <- Heq. now apply in_map.
  - destruct (Ws.isOpen c) eqn:Ho; [|reflexivity].
    assert (Hex : existsb (fun x => Nat.eqb (Ws.cid x) (Ws.cid c)) (filter Ws.isOpen l) = true).
    { apply existsb_exists. exists c. split; [now apply filter_In|apply Nat.eqb_refl]. }
    congruence.
Qed.



End NotifyFacts.

(* ===================================================================== *)
(** * The cache over time and GET /products *)
(* ===================================================================== *)

Module CatalogFacts.
Import Js Sheet Eff Products Catalog ProductsFacts.

Lemma newEvents_app (s s' : Server) (t : list event) :
  trace s' = trace s ++ t -> newEvents s s' = t.
Proof.
  intros H. unfold newEvents. rewrite H.
  rewrite skipn_app, skipn_all, Nat.sub_diag. reflexivity.
Qed.

Lemma unescapeNewlines_nil (s : str) : unescapeNewlines s = [] <-> s = [].
Proof.
  split; [|now intros ->].
  destruct s as [|c [|d r]]; simpl; try discriminate; [reflexivity|].
  destruct ((c =? 92) && (d =? 110))%N; discriminate.
Qed.

(** What one run of the reader adds to the trace: its own mark, then at
    most one authentication and, after a successful authentication, at
    most one request for the values. *)
Lemma fetchProductsFromSheet_events env w s :
  exists t,
    trace (snd (fetchProductsFromSheet env w s)) = trace s ++ t
    /\ (t = [CallFetchProductsFromSheet]
        \/ t = [CallFetchProductsFromSheet; AuthGetClient]
        \/ (t = [CallFetchProductsFromSheet; AuthGetClient;
                 SheetsValuesGet (orEmpty (SHEET_ID env)) (SHEET_RANGE env)]
            /\ getClient w = inr tt)).
Proof.
  unfold fetchProductsFromSheet, getSheetsClient. run.
  destruct (negb (truthy_str (orEmpty (SHEET_ID env)))); simpl; [eauto|].
  destruct (negb (truthy_str (orEmpty (GOOGLE_SA_KEY_BASE64 env)))); simpl; [eauto|].
  destruct (parseKey w _) as [e | json]; simpl; [eauto|].
  destruct (negb (truthy_str _)); simpl; [eauto|].
  destruct (getClient w) as [e | []]; simpl.
  - rewrite <- app_assoc. simpl. eauto.
  - destruct (valuesGet w) as [e | values]; simpl;
      rewrite <- !app_assoc; simpl; eauto 6.
Qed.

Lemma fetchProductsFromSheet_content env w s d s1 :
  fetchProductsFromSheet env w s = (Ret d, s1) ->
  exists values,
    valuesGet w = inr values
    /\ heap s1 = heap s ++ [productsOfRows (numberToString w)
                              (match values with Some rows => rows | None => [] end)].
Proof.
  unfold fetchProductsFromSheet. run.
  destruct (negb (truthy_str (orEmpty (SHEET_ID env)))); simpl; [discriminate|].
  match goal with |- context [getSheetsClient env w ?s0] =>
    pose proof (getSheetsClient_frame env w s0) as [Hh Hc];
    destruct (getSheetsClient env w s0) as [[a | e'] s2]
  end; simpl in *; [|discriminate].
  destruct (valuesGet w) as [e' | values]; simpl; [discriminate|].
  intros [= <- <-]. simpl. rewrite Hh. eauto.
Qed.

Lemma getProducts_stale env now w s :
  freshData env now (productsCache s) = None ->
  getProducts env now w s
  = match fetchProductsFromSheet env w s with
    | (Ret d, s1) =>
        (Ret d, {| heap := heap s1; productsCache := {| data := Some d; ts := now |};
                   trace := trace s1 |})
    | (Throw _, s1) =>
        match data (productsCache s1) with
        | Some old =>
            (Ret old,
             {| heap := heap s1; productsCache := productsCache s1;
                trace := trace s1 ++ [ConsoleError "[products] sheet fetch failed:"] |})
        | None =>
            (Ret (List.length (heap s1)),
             {| heap := heap s1 ++ [[]]; productsCache := productsCache s1;
                trace := trace s1 ++ [ConsoleError "[products] sheet fetch failed:"] |})
        end
    end.
Proof.
  intros Hf. unfold getProducts, dataOrEmpty. run. rewrite Hf.
  destruct (fetchProductsFromSheet env w s) as [[d | e] s1]; simpl; [reflexivity|].
  destruct (data (productsCache s1)); reflexivity.
Qed.

Lemma getProducts_fresh env now w s d :
  freshData env now (productsCache s) = Some d ->
  getProducts env now w s = (Ret d, s).
Proof. intros Hf. unfold getProducts. run. now rewrite Hf. Qed.

Lemma freshData_Some env now c d :
  freshData env now c = Some d -> data c = Some d.
Proof.
  unfold freshData. destruct (data c); [|discriminate].
  destruct (lt _ _); [now intros [= <-] | discriminate].
Qed.

(** X1. [getProducts] never raises and never changes or removes an array
    that exists: the heap only grows.  When the cache points to an
    allocated array, so does the value returned, and the cache still
    does afterwards. *)
Theorem getProducts_safe env now w s :
  exists r s',
    getProducts env now w s = (Ret r, s')
    /\ (exists added, heap s' = heap s ++ added)
    /\ (cacheValid s -> (r < List.length (heap s'))%nat /\ cacheValid s').
Proof.
  destruct (freshData env now (productsCache s)) as [d|] eqn:Hf.
  - exists d, s. split; [now apply getProducts_fresh|].
    split; [exists []; now rewrite app_nil_r|].
    intros Hv. split; [|exact Hv].
    apply freshData_Some in Hf. unfold cacheValid in Hv. now rewrite Hf in Hv.
  - rewrite (getProducts_stale env now w s Hf).
    destruct (fetchProductsFromSheet env w s) as [[d | e] s1] eqn:E.
    + destruct (fetchProductsFromSheet_ret _ _ _ E) as [Hd [[a Ha] Hc]].
      do 2 eexists. split; [reflexivity|]. simpl.
      split; [eauto|]. intros _. unfold cacheValid. simpl.
      rewrite Ha, length_app. simpl. lia.
    + destruct (fetchProductsFromSheet_throw _ _ _ E) as [Hh Hc].
      rewrite Hc. destruct (data (productsCache s)) as [old|] eqn:Hd.
      * do 2 eexists. split; [reflexivity|]. simpl. rewrite Hh.
        split; [exists []; now rewrite app_nil_r|].
        unfold cacheValid. simpl. rewrite Hd. auto.
      * do 2 eexists. split; [reflexivity|]. simpl. rewrite Hh.
        split; [eauto|]. intros _.
        unfold cacheValid. simpl. rewrite Hd, length_app. simpl. lia.
Qed.

Lemma getProducts_safe_witness :
  exists r s',
    getProducts sampleEnv 61000 downWorld warmServer = (Ret r, s')
    /\ (r < List.length (heap s'))%nat.
Proof.
  destruct (getProducts_safe sampleEnv 61000 downWorld warmServer)
    as [r [s' [E [_ H]]]].
  exists r, s'. split; [exact E|].
  apply H. unfold cacheValid. simpl. lia.
Defined.

(** X2. When the cache is stale or empty and the read of the sheet
    succeeds, [getProducts] returns a new array holding the records of
    the rows the API returned (none when [values] is missing), and the
    cache becomes that array stamped with [now]. *)
Theorem getProducts_refresh env now w s d s1 :
  freshData env now (productsCache s) = None ->
  fetchProductsFromSheet env w s = (Ret d, s1) ->
  exists values s',
    valuesGet w = inr values
    /\ getProducts env now w s = (Ret d, s')
    /\ productsCache s' = {| data := Some d; ts := now |}
    /\ d = List.length (heap s)
    /\ deref s' d = productsOfRows (numberToString w)
                      (match values with Some rows => rows | None => [] end).
Proof.
  intros Hf E.
  destruct (fetchProductsFromSheet_content _ _ _ E) as [values [Hv Hh]].
  destruct (fetchProductsFromSheet_ret _ _ _ E) as [Hd _].
  exists values. eexists. split; [exact Hv|].
  rewrite (getProducts_stale env now w s Hf), E.
  split; [reflexivity|]. split; [reflexivity|]. split; [exact Hd|].
  unfold deref. simpl. rewrite Hh, Hd.
  rewrite app_nth2 by lia. now rewrite Nat.sub_diag.
Qed.

Lemma getProducts_refresh_witness :
  exists values s',
    valuesGet upWorld = inr values
    /\ getProducts sampleEnv 61000 upWorld warmServer = (Ret 1%nat, s')
    /\ productsCache s' = {| data := Some 1%nat; ts := 61000 |}
    /\ 1%nat = List.length (heap warmServer)
    /\ deref s' 1%nat = productsOfRows (numberToString upWorld)
                          (match values with Some rows => rows | None => [] end).
Proof.
  apply (getProducts_refresh sampleEnv 61000 upWorld warmServer
           (s1 := snd (fetchProductsFromSheet sampleEnv upWorld warmServer)));
    reflexivity.
Defined.

(** X3. After a refresh at time [now], a call at a time [later] with
    [later - now] below the time to live returns the very same array and
    leaves the server untouched, whatever the world would answer. *)
Theorem getProducts_twice env now later w w' s d s1 :
  freshData env now (productsCache s) = None ->
  fetchProductsFromSheet env w s = (Ret d, s1) ->
  lt (Fin (inject_Z (later - now))) (PRODUCTS_CACHE_TTL_MS env) = true ->
  getProducts env later w' (snd (getProducts env now w s))
  = (Ret d, snd (getProducts env now w s)).
Proof.
  intros Hf E Hlt. rewrite (getProducts_stale env now w s Hf), E. simpl.
  apply getProducts_fresh. unfold freshData.
  cbn [data ts productsCache]. now rewrite Hlt.
Qed.

Lemma getProducts_twice_witness :
  getProducts sampleEnv 100000 downWorld
    (snd (getProducts sampleEnv 61000 upWorld warmServer))
  = (Ret 1%nat, snd (getProducts sampleEnv 61000 upWorld warmServer)).
Proof.
  apply (getProducts_twice sampleEnv 61000 100000 upWorld downWorld warmServer
           (d := 1%nat)
           (s1 := snd (fetchProductsFromSheet sampleEnv upWorld warmServer)));
    reflexivity.
Defined.

(** X4. A time to live that is not a number switches the cache off:
    every call of [getProducts] goes to the reader. *)
Theorem getProducts_ttl_nan env now w s :
  PRODUCTS_CACHE_TTL_MS env = NaN ->
  In CallFetchProductsFromSheet (newEvents s (snd (getProducts env now w s))).
Proof.
  intros Httl.
  assert (Hf : freshData env now (productsCache s) = None).
  { unfold freshData. rewrite Httl. now destruct (data (productsCache s)). }
  rewrite (getProducts_stale env now w s Hf).
  destruct (fetchProductsFromSheet_trace env w s) as [t Ht].
  destruct (fetchProductsFromSheet env w s) as [[d | e] s1]; simpl in *.
  - rewrite (newEvents_app s _ (CallFetchProductsFromSheet :: t)) by exact Ht.
    now left.
  - destruct (data (productsCache s1));
      erewrite (newEvents_app s _
                  (CallFetchProductsFromSheet
                     :: t ++ [ConsoleError "[products] sheet fetch failed:"]));
      try (now left); simpl; rewrite Ht, <- app_assoc; reflexivity.
Qed.

Lemma getProducts_ttl_nan_witness :
  In CallFetchProductsFromSheet
     (newEvents warmServer
        (snd (getProducts
                {| SHEET_ID := None; SHEET_RANGE := []; GOOGLE_SA_KEY_BASE64 := None;
                   PRODUCTS_CACHE_TTL_MS := NaN |} 1001 downWorld warmServer))).
Proof. apply getProducts_ttl_nan. reflexivity. Defined.

(** X5. There is no retry: one call of [getProducts] makes at most one
    authentication request and at most one request for the values, and
    the values are requested only after the authentication succeeded. *)
Theorem getProducts_no_retry env now w s :
  let t := newEvents s (snd (getProducts env now w s)) in
  (occurrences isAuthRequest t <= 1)%nat
  /\ (occurrences isSheetsRequest t <= 1)%nat
  /\ (occurrences isSheetsRequest t = 1%nat ->
        getClient w = inr tt /\ occurrences isAuthRequest t = 1%nat).
Proof.
  destruct (freshData env now (productsCache s)) as [d|] eqn:Hf.
  - rewrite (getProducts_fresh env now w s Hf). simpl.
    rewrite (newEvents_app s s []) by now rewrite app_nil_r.
    unfold occurrences. simpl. repeat split; try lia; discriminate.
  - rewrite (getProducts_stale env now w s Hf).
    destruct (fetchProductsFromSheet_events env w s) as [t [Ht Hshape]].
    destruct (fetchProductsFromSheet env w s) as [[d | e] s1]; simpl in Ht |- *.
    + rewrite (newEvents_app s _ t) by exact Ht.
      destruct Hshape as [-> | [-> | [-> Hc]]]; unfold occurrences; simpl;
        repeat split; auto; try lia; try discriminate.
    + assert (Hn : forall s2, trace s2 = trace s1 ++ [ConsoleError "[products] sheet fetch failed:"] ->
                   newEvents s s2 = t ++ [ConsoleError "[products] sheet fetch failed:"]).
      { intros s2 H2. apply newEvents_app. now rewrite H2, Ht, app_assoc. }
      destruct (data (productsCache s1)); rewrite Hn by reflexivity;
        destruct Hshape as [-> | [-> | [-> Hc]]]; unfold occurrences; simpl;
        repeat split; auto; try lia; try discriminate.
Qed.

(** X6. Without a sheet identifier the reader throws "Missing SHEET_ID"
    at once, with no authentication and no request; [getProducts] then
    only logs the failure and falls back. *)
Theorem missing_sheet_id env now w s :
  truthy_str (orEmpty (SHEET_ID env)) = false ->
  fetchProductsFromSheet env w s
  = (Throw (Error "Missing SHEET_ID"),
     {| heap := heap s; productsCache := productsCache s;
        trace := trace s ++ [CallFetchProductsFromSheet] |})
  /\ (freshData env now (productsCache s) = None ->
      newEvents s (snd (getProducts env now w s))
      = [CallFetchProductsFromSheet; ConsoleError "[products] sheet fetch failed:"]).
Proof.
  intros Hid.
  assert (E : fetchProductsFromSheet env w s
              = (Throw (Error "Missing SHEET_ID"),
                 {| heap := heap s; productsCache := productsCache s;
                    trace := trace s ++ [CallFetchProductsFromSheet] |})).
  { unfold fetchProductsFromSheet. run. now rewrite Hid. }
  split; [exact E|]. intros Hf.
  rewrite (getProducts_stale env now w s Hf), E. simpl.
  destruct (data (productsCache s)); apply newEvents_app; simpl;
    now rewrite <- app_assoc.
Qed.

Lemma missing_sheet_id_witness :
  newEvents initialServer
    (snd (getProducts {| SHEET_ID := None; SHEET_RANGE := lit "Products!A2:D";
                         GOOGLE_SA_KEY_BASE64 := None;
                         PRODUCTS_CACHE_TTL_MS := Fin 60000 |}
                      5 upWorld initialServer))
  = [CallFetchProductsFromSheet; ConsoleError "[products] sheet fetch failed:"].
Proof.
  apply (missing_sheet_id _ 5 upWorld initialServer); reflexivity.
Defined.

Lemma getProducts_no_retry_witness :
  getClient upWorld = inr tt
  /\ occurrences isAuthRequest
       (newEvents warmServer (snd (getProducts sampleEnv 61000 upWorld warmServer)))
     = 1%nat.
Proof.
  apply (proj2 (proj2 (getProducts_no_retry sampleEnv 61000 upWorld warmServer))).
  reflexivity.
Defined.

(** X7. The credentials are checked before anything is asked of Google:
    without a key the client throws "Missing GOOGLE_SA_KEY_BASE64", and
    with a key whose JSON has no (or an empty) private key it throws
    "Service Account private_key is empty", in both cases leaving the
    server as it was.  With a non-empty private key the authentication
    is attempted exactly once and its outcome is the outcome of the
    call. *)
Theorem getSheetsClient_credentials env w s :
  (truthy_str (orEmpty (GOOGLE_SA_KEY_BASE64 env)) = false ->
     getSheetsClient env w s = (Throw (Error "Missing GOOGLE_SA_KEY_BASE64"), s))
  /\ (forall json,
        truthy_str (orEmpty (GOOGLE_SA_KEY_BASE64 env)) = true ->
        parseKey w (orEmpty (GOOGLE_SA_KEY_BASE64 env)) = inr json ->
        (orEmpty (private_key json) = [] ->
           getSheetsClient env w s
           = (Throw (Error "Service Account private_key is empty"), s))
        /\ (orEmpty (private_key json) <> [] ->
              trace (snd (getSheetsClient env w s)) = trace s ++ [AuthGetClient]
              /\ fst (getSheetsClient env w s)
                 = match getClient w with
                   | inl e => Throw e
                   | inr _ =>
                       Ret {| private_key :=
                                Some (unescapeNewlines (orEmpty (private_key json)));
                              client_email := client_email json |}
                   end)).
Proof.
  split.
  - intros Hk. unfold getSheetsClient. now rewrite Hk.
  - intros json Hk Hp. unfold getSheetsClient. rewrite Hk. run. rewrite Hp. simpl.
    split.
    + intros He. now rewrite He.
    + intros Hne.
      destruct (unescapeNewlines (orEmpty (private_key json))) as [|c r] eqn:Eu.
      * apply (proj1 (unescapeNewlines_nil _)) in Eu. exfalso. exact (Hne Eu).
      * simpl. destruct (getClient w) as [e | []]; simpl; split; reflexivity.
Qed.

Lemma getSheetsClient_credentials_witness :
  getSheetsClient
    {| SHEET_ID := Some (lit "sheet"); SHEET_RANGE := []; GOOGLE_SA_KEY_BASE64 := None;
       PRODUCTS_CACHE_TTL_MS := Fin 60000 |} upWorld initialServer
  = (Throw (Error "Missing GOOGLE_SA_KEY_BASE64"), initialServer).
Proof.
  apply (proj1 (getSheetsClient_credentials _ upWorld initialServer)). reflexivity.
Defined.

(** ** The private key's line feeds *)

Lemma unescapeNewlines_head (s : str) c r :
  unescapeNewlines s = c :: r -> c = 10%N \/ hd_error s = Some c.
Proof.
  destruct s as [|x [|d t]]; simpl; [discriminate | intros [= <- _]; now right |].
  destruct ((x =? 92) && (d =? 110))%N; intros [= <- _]; auto.
Qed.

Lemma unescapeNewlines_no_escape_upto (n : nat) (s : str) :
  (List.length s <= n)%nat -> containsEscape (unescapeNewlines s) = false.
Proof.
  revert s. induction n as [|n IH]; intros s Hn.
  - destruct s; [reflexivity | simpl in Hn; lia].
  - destruct s as [|c [|d t]]; [reflexivity | reflexivity |].
    change (unescapeNewlines (c :: d :: t))
      with (if ((c =? 92) && (d =? 110))%N then 10%N :: unescapeNewlines t
            else c :: unescapeNewlines (d :: t)).
    simpl in Hn.
    destruct ((c =? 92) && (d =? 110))%N eqn:Hcd.
    + assert (Ht : containsEscape (unescapeNewlines t) = false) by (apply IH; lia).
      destruct (unescapeNewlines t) as [|x r] eqn:Eu; [reflexivity|].
      change (containsEscape (10%N :: x :: r))
        with (((10 =? 92) && (x =? 110))%N || containsEscape (x :: r)).
      now rewrite Ht.
    + assert (Ht : containsEscape (unescapeNewlines (d :: t)) = false)
        by (apply IH; simpl; lia).
      destruct (unescapeNewlines (d :: t)) as [|x r] eqn:Eu; [reflexivity|].
      change (containsEscape (c :: x :: r))
        with (((c =? 92) && (x =? 110))%N || containsEscape (x :: r)).
      rewrite Ht, orb_false_r.
      destruct (unescapeNewlines_head _ Eu) as [-> | Hx].
      * now rewrite andb_false_r.
      * simpl in Hx. injection Hx as ->. exact Hcd.
Qed.

Lemma unescapeNewlines_length_upto (n : nat) (s : str) :
  (List.length s <= n)%nat ->
  (List.length (unescapeNewlines s) <= List.length s)%nat.
Proof.
  revert s. induction n as [|n IH]; intros s Hn.
  - destruct s; [simpl; lia | simpl in Hn; lia].
  - destruct s as [|c [|d t]]; [simpl; lia | simpl; lia |].
    change (unescapeNewlines (c :: d :: t))
      with (if ((c =? 92) && (d =? 110))%N then 10%N :: unescapeNewlines t
            else c :: unescapeNewlines (d :: t)).
    simpl in Hn.
    destruct ((c =? 92) && (d =? 110))%N.
    + assert (H := IH t ltac:(lia)). simpl. lia.
    + assert (H := IH (d :: t) ltac:(simpl; lia)). simpl in *. lia.
Qed.

Lemma unescapeNewlines_plain (s : str) :
  ~ In 92%N s -> unescapeNewlines s = s.
Proof.
  induction s as [|c r IH]; intros Hs; [reflexivity|].
  destruct r as [|d t]; [reflexivity|].
  change (unescapeNewlines (c :: d :: t))
    with (if ((c =? 92) && (d =? 110))%N then 10%N :: unescapeNewlines t
          else c :: unescapeNewlines (d :: t)).
  destruct (c =? 92)%N eqn:Hc.
  - apply N.eqb_eq in Hc. subst c. exfalso. apply Hs. now left.
  - simpl. f_equal. apply IH. intros H. apply Hs. now right.
Qed.

(** X8. The normalisation of the private key leaves no escaped line feed
    (a backslash followed by [n]) in the key, never lengthens it, is
    empty only for an empty key, and does not touch a key without a
    backslash. *)
Theorem unescapeNewlines_normalises (s : str) :
  containsEscape (unescapeNewlines s) = false
  /\ (List.length (unescapeNewlines s) <= List.length s)%nat
  /\ (unescapeNewlines s = [] <-> s = [])
  /\ (~ In 92%N s -> unescapeNewlines s = s).
Proof.
  split; [apply unescapeNewlines_no_escape_upto with (n := List.length s); lia|].
  split; [apply unescapeNewlines_length_upto with (n := List.length s); lia|].
  split; [apply unescapeNewlines_nil | apply unescapeNewlines_plain].
Qed.

Lemma unescapeNewlines_normalises_witness :
  unescapeNewlines (lit "-----BEGIN") = lit "-----BEGIN".
Proof.
  apply (proj2 (proj2 (proj2 (unescapeNewlines_normalises (lit "-----BEGIN"))))).
  vm_compute. intuition discriminate.
Defined.

(** ** The route *)

Lemma productsRoute_run env now w s r s1 :
  getProducts env now w s = (Ret r, s1) ->
  productsRoute env now w s
  = (Ret {| status := 200; cacheControl := Some "no-store"%string;
            body := deref s1 r |},
     {| heap := heap s1; productsCache := productsCache s1;
        trace := trace s1 ++ [ConsoleLog "[/products] returned items"] |}).
Proof.
  intros E. unfold productsRoute. run. now rewrite E.
Qed.

(** X9. [GET /products] always answers 200 with [no-store], and never
    fails: within the time to live it serves the cached array; when the
    read of the sheet fails it serves the array cached earlier, or the
    empty list if there is none. *)
Theorem productsRoute_answers env now w s :
  exists resp s',
    productsRoute env now w s = (Ret resp, s')
    /\ status resp = 200%N
    /\ cacheControl resp = Some "no-store"%string
    /\ (forall d, freshData env now (productsCache s) = Some d ->
          body resp = deref s d /\ heap s' = heap s)
    /\ (forall e s1,
          freshData env now (productsCache s) = None ->
          fetchProductsFromSheet env w s = (Throw e, s1) ->
          body resp = match data (productsCache s) with
                      | Some d => deref s d
                      | None => []
                      end).
Proof.
  destruct (freshData env now (productsCache s)) as [d|] eqn:Hf.
  - rewrite (productsRoute_run env now w s (getProducts_fresh env now w s Hf)).
    do 2 eexists. split; [reflexivity|]. simpl.
    split; [reflexivity|]. split; [reflexivity|].
    split; [intros d0 [= <-]; split; reflexivity | intros e s1 H; discriminate H].
  - pose proof (getProducts_stale env now w s Hf) as Hg.
    destruct (fetchProductsFromSheet env w s) as [[d | e] s1] eqn:E.
    + rewrite (productsRoute_run env now w s Hg).
      do 2 eexists. split; [reflexivity|]. simpl.
      split; [reflexivity|]. split; [reflexivity|].
      split; [intros d0 H; discriminate H | intros e s2 _ H; discriminate H].
    + destruct (fetchProductsFromSheet_throw _ _ _ E) as [Hh Hc].
      rewrite Hc in Hg. destruct (data (productsCache s)) as [old|] eqn:Hd;
        rewrite (productsRoute_run env now w s Hg);
        do 2 eexists; (split; [reflexivity|]); simpl;
        (split; [reflexivity|]); (split; [reflexivity|]);
        (split; [intros d0 H; discriminate H | intros e0 s2 _ _]).
      * unfold deref. simpl. now rewrite Hh.
      * unfold deref. simpl. rewrite app_nth2 by lia. now rewrite Nat.sub_diag.
Qed.

Lemma productsRoute_answers_witness :
  exists resp,
    fst (productsRoute sampleEnv 61000 downWorld warmServer) = Ret resp
    /\ body resp = deref warmServer 0%nat.
Proof.
  destruct (productsRoute_answers sampleEnv 61000 downWorld warmServer)
    as [resp [s' [E [_ [_ [_ H]]]]]].
  exists resp. rewrite E. split; [reflexivity|].
  apply (H (Error "ECONNRESET")
           (snd (fetchProductsFromSheet sampleEnv downWorld warmServer)));
    reflexivity.
Defined.

End CatalogFacts.

(* ===================================================================== *)
(** * More on the proxy and the watcher *)
(* ===================================================================== *)

Module OutsideFacts.
Import Js Eff Proxy Notify Outside JsFacts.

Lemma fetchedUrls_app (t u : list event) :
  fetchedUrls (t ++ u) = fetchedUrls t ++ fetchedUrls u.
Proof. unfold fetchedUrls. apply flat_map_app. Qed.

(** X10. The proxy handler never raises and always sends an answer.  It
    fetches at most once, and only the Drive URL built from the trimmed
    identifier, which then is made of word characters and hyphens only
    and has ten of them or more. *)
Theorem getImg_safe (param : str) upstream (c : Conn) :
  exists c' t,
    getImg param upstream c = (Ret tt, c')
    /\ (exists b, sent (res c') = Some b)
    /\ trace c' = trace c ++ t
    /\ (fetchedUrls t = []
        \/ (fetchedUrls t = [driveUrl (trim param)]
            /\ (10 <= List.length (trim param))%nat
            /\ Forall (fun u => isWord u = true \/ u = 45%N) (trim param))).
Proof.
  assert (Hvalid : validId (trim param) = true ->
                   (10 <= List.length (trim param))%nat
                   /\ Forall (fun u => isWord u = true \/ u = 45%N) (trim param)).
  { unfold validId. intros H. apply andb_true_iff in H as [Hl Hf].
    split; [now apply Nat.leb_le|].
    apply Forall_forall. intros u Hu.
    rewrite forallb_forall in Hf. specialize (Hf u Hu).
    apply orb_true_iff in Hf as [Hw | He]; [now left | right; now apply N.eqb_eq]. }
  run. destruct (validId (trim param)) eqn:Hv; simpl.
  - specialize (Hvalid eq_refl).
    destruct (upstream (driveUrl (trim param))) as [e | r]; simpl.
    + do 2 eexists. split; [reflexivity|]. simpl.
      split; [eauto|]. split; [now rewrite <- app_assoc|]. right. auto.
    + destruct (ok r); simpl.
      * destruct (arrayBuffer r) as [e | buf]; simpl;
          do 2 eexists; (split; [reflexivity|]); simpl;
          (split; [eauto|]); (split; [now rewrite <- ?app_assoc|]); right; auto.
      * do 2 eexists. split; [reflexivity|]. simpl.
        split; [eauto|]. split; [now rewrite <- app_assoc|]. right. auto.
  - exists {| res := {| statusCode := 400; headers := headers (res c);
                       sent := Some (Text "bad id") |};
              trace := trace c |}, [].
    split; [reflexivity|]. simpl. split; [eauto|].
    split; [now rewrite app_nil_r | now left].
Qed.

(** X11. For a valid identifier, a failure after the validation is
    answered, not raised: when the fetch itself fails, and when the
    upstream answer is ok but its body cannot be read, the handler sets
    status 500 and sends "proxy error", having made its one fetch and
    logged the error.  In the second case the one-day cache instruction
    set before the body was read is still among the headers the
    handler has set on that answer. *)
Theorem getImg_proxy_error (param : str) upstream (c : Conn) :
  validId (trim param) = true ->
  (forall e,
     upstream (driveUrl (trim param)) = inl e ->
     exists c',
       getImg param upstream c = (Ret tt, c')
       /\ statusCode (res c') = 500%N
       /\ sent (res c') = Some (Text "proxy error")
       /\ trace c' = trace c ++ [HttpFetch (driveUrl (trim param));
                                 ConsoleError "[img] error:"])
  /\ (forall r e,
        upstream (driveUrl (trim param)) = inr r -> ok r = true ->
        arrayBuffer r = inl e ->
        exists c',
          getImg param upstream c = (Ret tt, c')
          /\ statusCode (res c') = 500%N
          /\ sent (res c') = Some (Text "proxy error")
          /\ In ("Cache-Control"%string, lit "public, max-age=86400")
                (headers (res c'))
          /\ trace c' = trace c ++ [HttpFetch (driveUrl (trim param));
                                    ConsoleError "[img] error:"]).
Proof.
  intros Hv. split.
  - intros e Hu. run. rewrite Hv. simpl. rewrite Hu. simpl.
    eexists. split; [reflexivity|]. simpl.
    repeat split. now rewrite <- app_assoc.
  - intros r e Hu Hok Hbuf. run. rewrite Hv. simpl. rewrite Hu. simpl.
    rewrite Hok. simpl. rewrite Hbuf. simpl.
    eexists. split; [reflexivity|]. simpl.
    split; [reflexivity|]. split; [reflexivity|]. split.
    + rewrite !in_app_iff. simpl. auto.
    + now rewrite <- !app_assoc.
Qed.

Lemma getImg_proxy_error_witness :
  exists c',
    getImg (lit "abcdefghij") (fun _ => inl (Error "ENOTFOUND")) freshConn
    = (Ret tt, c')
    /\ statusCode (res c') = 500%N
    /\ sent (res c') = Some (Text "proxy error")
    /\ trace c' = trace freshConn ++ [HttpFetch (driveUrl (trim (lit "abcdefghij")));
                                     ConsoleError "[img] error:"].
Proof.
  apply (proj1 (getImg_proxy_error (lit "abcdefghij")
                  (fun _ => inl (Error "ENOTFOUND")) freshConn eq_refl)
               (Error "ENOTFOUND")).
  reflexivity.
Defined.

Lemma word_not_white u :
  isWord u = true \/ u = 45%N -> isWhiteSpace u = false.
Proof.
  intros H. destruct (isWhiteSpace u) eqn:E; [|reflexivity].
  unfold isWhiteSpace in E. unfold isWord, isDigit in H.
  destruct H as [H | ->]; [units | discriminate E].
Qed.

Lemma trim_clean (s : str) :
  Forall (fun u => isWhiteSpace u = false) s -> trim s = s.
Proof.
  intros H. unfold trim, trimEnd.
  assert (Hs : trimStart s = s).
  { apply trimStart_id. destruct H; [exact I | assumption]. }
  rewrite Hs.
  assert (Hr : trimStart (rev s) = rev s).
  { apply trimStart_id. destruct (rev s) as [|x r] eqn:E; [exact I|].
    rewrite Forall_forall in H. apply H. apply in_rev. rewrite E. now left. }
  now rewrite Hr, rev_involutive.
Qed.

(** X12. An identifier that matches the pattern as it comes is used as it
    is: trimming does not change it, and the URL fetched is the Drive URL
    of the identifier itself. *)
Theorem getImg_valid_verbatim (param : str) upstream (c : Conn) :
  validId param = true ->
  trim param = param
  /\ exists t, trace (snd (getImg param upstream c)) = trace c ++ t
               /\ fetchedUrls t = [driveUrl param].
Proof.
  intros Hv.
  assert (Ht : trim param = param).
  { apply trim_clean. unfold validId in Hv. apply andb_true_iff in Hv as [_ Hf].
    apply Forall_forall. intros u Hu. rewrite forallb_forall in Hf.
    specialize (Hf u Hu). apply word_not_white.
    apply orb_true_iff in Hf as [Hw | He]; [now left | right; now apply N.eqb_eq]. }
  split; [exact Ht|].
  run. rewrite Ht, Hv. simpl.
  destruct (upstream (driveUrl param)) as [e | r]; simpl.
  - eexists. split; [now rewrite <- app_assoc | reflexivity].
  - destruct (ok r); simpl.
    + destruct (arrayBuffer r); simpl;
        eexists; (split; [now rewrite <- ?app_assoc | reflexivity]).
    + eexists. split; [now rewrite <- app_assoc | reflexivity].
Qed.

Lemma getImg_valid_verbatim_witness :
  trim (lit "1AbC_def-9z") = lit "1AbC_def-9z".
Proof.
  apply (getImg_valid_verbatim (lit "1AbC_def-9z") servesPng freshConn).
  reflexivity.
Defined.

(** ** A run of change notifications *)

Lemma broadcasts_app' (t u : list event) :
  broadcasts (t ++ u) = (broadcasts t + broadcasts u)%nat.
Proof. unfold broadcasts. now rewrite filter_app, length_app. Qed.

Lemma deliver_socketio (events : list WatchEvent) (t : list event) :
  exists t',
    deliver SocketIO.watchCallback events t = (Ret tt, t')
    /\ broadcasts t' = (broadcasts t + List.length (filter named events))%nat.
Proof.
  revert t. induction events as [|e rest IH]; intros t; simpl.
  - exists t. split; [reflexivity | lia].
  - unfold bind, SocketIO.watchCallback, onChange.
    destruct (named e) eqn:Hn; unfold named in Hn; rewrite Hn; simpl.
    + destruct (IH ((t ++ [ConsoleLog "[watch] change detected"]) ++ [IoEmit "update"]))
        as [t' [E Hb]].
      exists t'. split; [exact E|]. rewrite Hb, !broadcasts_app'.
      change (broadcasts [ConsoleLog "[watch] change detected"]) with 0%nat.
      change (broadcasts [IoEmit "update"]) with 1%nat. lia.
    + apply IH.
Qed.

(** X13. Nothing is coalesced: over any run of change notifications the
    Socket.IO server emits exactly one broadcast per notification that
    carries a file name, and the watcher never raises.  When the images
    folder is missing at start, no watch is installed and nothing is
    ever broadcast. *)
Theorem watchImages_broadcasts (folderExists : bool) (events : list WatchEvent)
        (t : list event) :
  fst (watchImages folderExists events t) = Ret tt
  /\ broadcasts (snd (watchImages folderExists events t))
     = (broadcasts t
        + (if folderExists then List.length (filter named events) else 0))%nat.
Proof.
  unfold watchImages. destruct folderExists.
  - destruct (deliver_socketio events t) as [t' [E Hb]]. rewrite E. auto.
  - unfold log, modify. simpl. rewrite broadcasts_app'. unfold broadcasts. simpl.
    split; [reflexivity | lia].
Qed.

Lemma sentTo_app k (t u : list event) :
  sentTo k (t ++ u) = sentTo k t ++ sentTo k u.
Proof. unfold sentTo. apply flat_map_app. Qed.

Lemma ws_watchCallback_step sendResult (clients : list Ws.Client) ty fn
      (t : list event) :
  (forall x, In x clients -> Ws.isOpen x = true -> sendResult (Ws.cid x) = inr tt) ->
  Ws.watchCallback sendResult clients ty fn t
  = (Ret tt,
     if truthy_str (orEmpty fn)
     then (t ++ [ConsoleLog "[watch] change detected"])
            ++ updatesFor (filter Ws.isOpen clients)
     else t).
Proof.
  intros Hok. unfold Ws.watchCallback, onChange.
  destruct (truthy_str (orEmpty fn)); [|reflexivity].
  unfold bind, log, modify.
  now rewrite (NotifyFacts.notifyClients_all_sent sendResult clients _ Hok).
Qed.

(** X14. With the [ws] server and sockets that accept what they are
    sent, every client that is open receives one "update" per
    notification that carries a file name, and a client that is not open
    receives none. *)
Theorem ws_watch_deliveries sendResult (clients : list Ws.Client)
        (events : list WatchEvent) (c : Ws.Client) (t : list event) :
  NoDup (map Ws.cid clients) -> In c clients ->
  (forall x, In x clients -> Ws.isOpen x = true -> sendResult (Ws.cid x) = inr tt) ->
  fst (deliver (Ws.watchCallback sendResult clients) events t) = Ret tt
  /\ sentTo (Ws.cid c) (snd (deliver (Ws.watchCallback sendResult clients) events t))
     = sentTo (Ws.cid c) t
       ++ repeat "update"%string
            (if Ws.isOpen c then List.length (filter named events) else 0).
Proof.
  intros Hnd Hin Hok.
  revert t. induction events as [|e rest IH]; intros t.
  - simpl. split; [reflexivity|]. destruct (Ws.isOpen c); now rewrite app_nil_r.
  - change (deliver (Ws.watchCallback sendResult clients) (e :: rest) t)
      with (bind (Ws.watchCallback sendResult clients (eventType e) (filename e))
                 (fun _ => deliver (Ws.watchCallback sendResult clients) rest) t).
    unfold bind. rewrite (ws_watchCallback_step sendResult clients _ _ t Hok).
    change (filter named (e :: rest))
      with (if named e then e :: filter named rest else filter named rest).
    unfold named at 1.
    destruct (truthy_str (orEmpty (filename e))).
    + destruct (IH ((t ++ [ConsoleLog "[watch] change detected"])
                      ++ updatesFor (filter Ws.isOpen clients))) as [E1 E2].
      split; [exact E1|]. rewrite E2, !sentTo_app.
      rewrite NotifyFacts.sentTo_updatesFor by now apply NotifyFacts.NoDup_cid_filter.
      rewrite (NotifyFacts.open_client_found clients c Hnd Hin).
      change (sentTo (Ws.cid c) [ConsoleLog "[watch] change detected"]) with (@nil string).
      rewrite app_nil_r.
      destruct (Ws.isOpen c); simpl; [now rewrite <- app_assoc | now rewrite app_nil_r].
    + apply IH.
Qed.

Lemma ws_watch_deliveries_witness :
  sentTo 1 (snd (deliver (Ws.watchCallback (fun _ => inr tt) threeClients)
                   [ {| eventType := lit "rename"; filename := Some (lit "a.png") |};
                     {| eventType := lit "change"; filename := None |};
                     {| eventType := lit "change"; filename := Some (lit "a.png") |} ]
                   []))
  = ["update"%string; "update"%string].
Proof.
  refine (proj2 (ws_watch_deliveries (fun _ => inr tt) threeClients
                   [ {| eventType := lit "rename"; filename := Some (lit "a.png") |};
                     {| eventType := lit "change"; filename := None |};
                     {| eventType := lit "change"; filename := Some (lit "a.png") |} ]
                   {| Ws.cid := 1; Ws.readyState := Ws.OPEN |} [] _ _ _)).
  - repeat constructor; simpl; intuition discriminate.
  - simpl. auto.
  - intros x _ _. reflexivity.
Defined.

End OutsideFacts.

(* ===================================================================== *)
(** * Facts about the rounding to binary64 *)
(* ===================================================================== *)

Module Binary64Facts.
Import Binary64.

















End Binary64Facts.

(* ===================================================================== *)
(** * The first server's listing and the first set-up script *)
(* ===================================================================== *)

Module FirstFacts.
Import Js Eff Images FirstServer NodePath Setup JsFacts ImagesFacts.

Lemma existsb_lower (alts : list str) (r : str) :
  forallb (forallb isLower) alts = true ->
  existsb (eqIgnoreCase r) alts = existsb (str_eqb (map toLower r)) alts.
Proof.
  induction alts as [|alt l IH]; simpl; [reflexivity|].
  intros Hl. apply andb_true_iff in Hl as [Ha Hl].
  now rewrite (eqIgnoreCase_lower r alt Ha), (IH Hl).
Qed.

Lemma existsb_lower_noPeriod (alts : list str) (r : str) :
  forallb (forallb isLower) alts = true ->
  existsb (eqIgnoreCase r) alts = true -> noPeriod r = true.
Proof.
  induction alts as [|alt l IH]; simpl; [discriminate|].
  intros Hl H. apply andb_true_iff in Hl as [Ha Hl].
  apply orb_true_iff in H as [H | H].
  - exact (eqIgnoreCase_noPeriod r alt Ha H).
  - exact (IH Hl H).
Qed.

(** A pattern of lower-case alternatives accepts a name exactly when the
    text after its last period is one of them, whatever the case. *)
Lemma testWith_allowedWith (alts : list str) (name : str) :
  forallb (forallb isLower) alts = true ->
  testWith alts name = allowedWith alts name.
Proof.
  intros Hl. unfold allowedWith.
  induction name as [|c r IH]; [reflexivity|].
  change (testWith alts (c :: r))
    with ((c =? 46)%N && existsb (eqIgnoreCase r) alts || testWith alts r).
  change (extension (c :: r))
    with (match extension r with
          | Some e => Some e
          | None => if (c =? 46)%N then Some r else None
          end).
  destruct (extension r) as [e|] eqn:He.
  - rewrite IH.
    destruct ((c =? 46)%N && existsb (eqIgnoreCase r) alts) eqn:Hm; [|reflexivity].
    apply andb_true_iff in Hm as [_ Hm].
    apply (existsb_lower_noPeriod alts r Hl), extension_noPeriod in Hm. congruence.
  - rewrite IH, orb_false_r.
    destruct (c =? 46)%N; [now apply existsb_lower | reflexivity].
Qed.

(** X15. The first server's [GET /images] answers 500 with an error
    object when the folder cannot be read; otherwise it lists every
    entry, regular file or not, whose extension is jpg, jpeg, png or
    gif whatever its case.  Every name it lists has an extension the
    later server allows too. *)
Theorem first_server_images :
  (forall e, status (getImages (inl e)) = 500%N)
  /\ (forall files,
        getImages (inr files)
        = {| status := 200;
             body := NamesJson (filter (allowedWith alternativesV1) files) |})
  /\ (forall name,
        allowedWith alternativesV1 name = true -> allowedExtension name = true).
Proof.
  split; [reflexivity|]. split.
  - intros files. unfold getImages. do 2 f_equal.
    apply filter_ext. intros name. now apply testWith_allowedWith.
  - intros name. unfold allowedWith, allowedExtension.
    destruct (extension name) as [e|]; [|discriminate].
    unfold alternativesV1, alternatives. simpl.
    destruct (str_eqb (map toLower e) (lit "jpg"));
      destruct (str_eqb (map toLower e) (lit "jpeg"));
      destruct (str_eqb (map toLower e) (lit "png"));
      destruct (str_eqb (map toLower e) (lit "gif")); simpl; auto; discriminate.
Qed.

Lemma first_server_images_witness : allowedExtension (lit "Logo.GIF") = true.
Proof.
  apply (proj2 (proj2 first_server_images)). reflexivity.
Defined.

(** ** The default products *)


(** The rounding shows: the binary64 number nearest to 0.03, times 100,
    is rounded to 3, where the exact product is just below 3. *)
Lemma randomPrice_rounded :
  randomPrice (8646911284551352 # 288230376151711744) = 13%Z
  /\ (Qround.Qfloor ((8646911284551352 # 288230376151711744) * (100 # 1)) + 10 = 12)%Z.
Proof. split; vm_compute; reflexivity. Qed.




End FirstFacts.

(* ===================================================================== *)
(** * The seeding of the images table *)
(* ===================================================================== *)

Module SeedFacts.
Import Js Eff Images NodePath Seed JsFacts ImagesFacts.

Lemma str_eqb_eq (a b : str) : str_eqb a b = true <-> a = b.
Proof.
  unfold str_eqb. destruct (list_eq_dec N.eq_dec a b); split; auto; discriminate.
Qed.

Lemma str_eqb_neq (a b : str) : str_eqb a b = false <-> a <> b.
Proof.
  unfold str_eqb. destruct (list_eq_dec N.eq_dec a b); split; auto;
    try discriminate. intros H. contradiction.
Qed.

Lemma upsertRow_titles (t u : str) (tbl : Table) :
  map title (upsertRow t u tbl)
  = if existsb (fun r => str_eqb (title r) t) tbl then map title tbl
    else map title tbl ++ [t].
Proof.
  induction tbl as [|r rest IH]; simpl; [reflexivity|].
  destruct (str_eqb (title r) t) eqn:E; simpl.
  - apply str_eqb_eq in E. now rewrite E.
  - rewrite IH. now destruct (existsb _ rest).
Qed.

Lemma upsertRow_lookup_same (t u : str) (tbl : Table) :
  lookupUrl t (upsertRow t u tbl) = Some u.
Proof.
  unfold lookupUrl. induction tbl as [|r rest IH]; simpl.
  - now rewrite (proj2 (str_eqb_eq t t) eq_refl).
  - destruct (str_eqb (title r) t) eqn:E; simpl.
    + now rewrite (proj2 (str_eqb_eq t t) eq_refl).
    + now rewrite E.
Qed.

Lemma upsertRow_lookup_other (t u t' : str) (tbl : Table) :
  t' <> t -> lookupUrl t' (upsertRow t u tbl) = lookupUrl t' tbl.
Proof.
  intros Hne. unfold lookupUrl.
  assert (Hf : str_eqb t t' = false) by (apply str_eqb_neq; congruence).
  induction tbl as [|r rest IH]; simpl.
  - now rewrite Hf.
  - destruct (str_eqb (title r) t) eqn:E; simpl.
    + apply str_eqb_eq in E. rewrite E, Hf. reflexivity.
    + destruct (str_eqb (title r) t'); [reflexivity | exact IH].
Qed.

Lemma upsertRow_NoDup (t u : str) (tbl : Table) :
  NoDup (map title tbl) -> NoDup (map title (upsertRow t u tbl)).
Proof.
  intros Hnd. rewrite upsertRow_titles.
  destruct (existsb _ tbl) eqn:Ex; [exact Hnd|].
  apply NoDup_app; [exact Hnd | repeat constructor; intros [] |].
  - intros x Hx [Heq | []]. subst x.
    apply in_map_iff in Hx as [r [Hr Hin]].
    assert (Ht : existsb (fun r => str_eqb (title r) t) tbl = true).
    { apply existsb_exists. exists r. split; [exact Hin | now apply str_eqb_eq]. }
    congruence.
Qed.

(** X17. The upsert keeps the titles of the table distinct, stores the
    URL under the title (a later read of the title gives that URL),
    leaves every other title's URL as it was, and adds at most one
    row. *)
Theorem upsertRow_table (t u : str) (tbl : Table) :
  lookupUrl t (upsertRow t u tbl) = Some u
  /\ (forall t', t' <> t -> lookupUrl t' (upsertRow t u tbl) = lookupUrl t' tbl)
  /\ (NoDup (map title tbl) -> NoDup (map title (upsertRow t u tbl)))
  /\ (List.length tbl <= List.length (upsertRow t u tbl) <= S (List.length tbl))%nat
  /\ (lookupUrl t tbl <> None ->
      List.length (upsertRow t u tbl) = List.length tbl).
Proof.
  split; [apply upsertRow_lookup_same|].
  split; [intros t'; apply upsertRow_lookup_other|].
  split; [apply upsertRow_NoDup|].
  assert (Hl : List.length (upsertRow t u tbl)
               = if existsb (fun r => str_eqb (title r) t) tbl
                 then List.length tbl else S (List.length tbl)).
  { rewrite <- (length_map title), upsertRow_titles.
    destruct (existsb _ tbl); [apply length_map|].
    rewrite length_app, length_map. simpl. lia. }
  split.
  - rewrite Hl. destruct (existsb _ tbl); lia.
  - intros Hs. rewrite Hl. destruct (existsb _ tbl) eqn:Ex; [reflexivity|].
    exfalso. apply Hs. unfold lookupUrl.
    destruct (find _ tbl) as [r|] eqn:Ef; [|reflexivity].
    apply find_some in Ef as [Hin Hr].
    assert (existsb (fun r => str_eqb (title r) t) tbl = true)
      by (apply existsb_exists; eauto).
    congruence.
Qed.

Lemma upsertRow_table_witness :
  lookupUrl (lit "Latte")
    (upsertRow (lit "Mocha") (lit "/images/m.png")
       [ {| title := lit "Latte"; url := lit "/images/l.png" |} ])
  = lookupUrl (lit "Latte") [ {| title := lit "Latte"; url := lit "/images/l.png" |} ].
Proof.
  apply (proj1 (proj2 (upsertRow_table (lit "Mocha") (lit "/images/m.png")
                         [ {| title := lit "Latte"; url := lit "/images/l.png" |} ]))).
  discriminate.
Defined.

(** ** Seeding from the folder *)

Section FolderFacts.
Variable encode : str -> exn + str.

Lemma seedFiles_step (f : Dirent) (rest : list Dirent) (count : nat) (tbl : Table) :
  seedFiles encode (f :: rest) count tbl
  = if seedable f then
      match encode (d_name f) with
      | inl e => (Throw e, tbl)
      | inr encoded =>
          seedFiles encode rest (S count)
            (upsertRow (titleOf (d_name f)) (lit "/images/" ++ encoded) tbl)
      end
    else seedFiles encode rest count tbl.
Proof.
  unfold seedable. simpl.
  destruct (isFile f); simpl; [|reflexivity].
  destruct (validExt (lowerExt (d_name f))); simpl; [|reflexivity].
  unfold bind, ofResult, upsertImage, modify, throw, ret.
  destruct (encode (d_name f)); reflexivity.
Qed.

Lemma seedFiles_NoDup (files : list Dirent) (count : nat) (tbl : Table) :
  NoDup (map title tbl) ->
  NoDup (map title (snd (seedFiles encode files count tbl))).
Proof.
  revert count tbl. induction files as [|f rest IH]; intros count tbl Hnd;
    [exact Hnd|].
  rewrite seedFiles_step. destruct (seedable f); [|now apply IH].
  destruct (encode (d_name f)); [exact Hnd|]. apply IH. now apply upsertRow_NoDup.
Qed.

Lemma upsertRow_keeps (t u t' : str) (tbl : Table) :
  lookupUrl t' tbl <> None -> lookupUrl t' (upsertRow t u tbl) <> None.
Proof.
  intros H. destruct (list_eq_dec N.eq_dec t' t) as [-> | Hne].
  - rewrite upsertRow_lookup_same. discriminate.
  - now rewrite upsertRow_lookup_other.
Qed.

Lemma seedFiles_keeps (files : list Dirent) (count : nat) (tbl : Table) (t : str) :
  lookupUrl t tbl <> None ->
  lookupUrl t (snd (seedFiles encode files count tbl)) <> None.
Proof.
  revert count tbl. induction files as [|f rest IH]; intros count tbl H; [exact H|].
  rewrite seedFiles_step. destruct (seedable f); [|now apply IH].
  destruct (encode (d_name f)); [exact H|]. apply IH. now apply upsertRow_keeps.
Qed.

Lemma seedFiles_outcome (files : list Dirent) (count : nat) (tbl : Table) :
  (exists e, fst (seedFiles encode files count tbl) = Throw e)
  \/ fst (seedFiles encode files count tbl)
     = Ret (count + List.length (filter seedable files))%nat.
Proof.
  revert count tbl. induction files as [|f rest IH]; intros count tbl.
  - right. simpl. f_equal. lia.
  - rewrite seedFiles_step. simpl filter. destruct (seedable f).
    + destruct (encode (d_name f)) as [e | enc]; [left; now exists e|].
      destruct (IH (S count) (upsertRow (titleOf (d_name f)) (lit "/images/" ++ enc) tbl))
        as [He | Hr]; [now left | right].
      rewrite Hr. simpl. f_equal. lia.
    + apply IH.
Qed.

Lemma seedFiles_all (files : list Dirent) (count : nat) (tbl : Table) :
  (forall f, In f files -> seedable f = true ->
             exists enc, encode (d_name f) = inr enc) ->
  fst (seedFiles encode files count tbl)
  = Ret (count + List.length (filter seedable files))%nat
  /\ (forall f, In f files -> seedable f = true ->
        lookupUrl (titleOf (d_name f)) (snd (seedFiles encode files count tbl))
        <> None).
Proof.
  revert count tbl. induction files as [|f rest IH]; intros count tbl Henc.
  - split; [simpl; f_equal; lia | intros f []].
  - rewrite seedFiles_step. simpl filter.
    assert (Hrest : forall g, In g rest -> seedable g = true ->
                              exists enc, encode (d_name g) = inr enc)
      by (intros g Hg; apply Henc; now right).
    destruct (seedable f) eqn:Hs.
    + destruct (Henc f (or_introl eq_refl) Hs) as [enc He]. rewrite He.
      destruct (IH (S count) (upsertRow (titleOf (d_name f)) (lit "/images/" ++ enc) tbl)
                   Hrest) as [Hc Hl].
      split; [rewrite Hc; simpl; f_equal; lia|].
      intros g [<- | Hg] Hsg; [|now apply Hl].
      apply seedFiles_keeps. rewrite upsertRow_lookup_same. discriminate.
    + destruct (IH count tbl Hrest) as [Hc Hl]. split; [exact Hc|].
      intros g [<- | Hg] Hsg; [congruence | now apply Hl].
Qed.

End FolderFacts.

Lemma seedFromFolder_returns (encode : str -> exn + str)
      (readdir : exn + list Dirent) (tbl : Table) :
  exists n, fst (seedFromFolder encode readdir tbl) = Ret n.
Proof.
  unfold seedFromFolder, tryCatch, bind, ofResult, throw, ret.
  destruct readdir as [e | files]; simpl; [eauto|].
  destruct (seedFiles encode files 0 tbl) as [[n | e] tbl']; simpl; eauto.
Qed.

(** X18. The folder seeding never raises and keeps the titles of the
    table distinct.  If the folder cannot be read it reports 0 and
    writes nothing.  Otherwise it reports either the number of entries
    that are regular files with a valid extension, or 0 when an
    encoding failed on the way; when no encoding fails it reports that
    number, and the title of every such entry is in the table
    afterwards. *)
Theorem seedFromFolder_result (encode : str -> exn + str)
        (readdir : exn + list Dirent) (tbl : Table) :
  (exists n, fst (seedFromFolder encode readdir tbl) = Ret n)
  /\ (NoDup (map title tbl) ->
      NoDup (map title (snd (seedFromFolder encode readdir tbl))))
  /\ (forall e, readdir = inl e ->
        seedFromFolder encode readdir tbl = (Ret 0%nat, tbl))
  /\ (forall files, readdir = inr files ->
        (fst (seedFromFolder encode readdir tbl) = Ret 0%nat
         \/ fst (seedFromFolder encode readdir tbl)
            = Ret (List.length (filter seedable files)))
        /\ ((forall f, In f files -> seedable f = true ->
                       exists enc, encode (d_name f) = inr enc) ->
            fst (seedFromFolder encode readdir tbl)
            = Ret (List.length (filter seedable files))
            /\ (forall f, In f files -> seedable f = true ->
                  lookupUrl (titleOf (d_name f))
                            (snd (seedFromFolder encode readdir tbl)) <> None))).
Proof.
  unfold seedFromFolder, tryCatch, bind, ofResult, throw, ret.
  destruct readdir as [e | files]; simpl.
  - split; [eauto|]. split; [auto|]. split; [reflexivity|]. discriminate.
  - pose proof (seedFiles_NoDup encode files 0 tbl) as Hnd.
    pose proof (seedFiles_outcome encode files 0 tbl) as Ho.
    pose proof (seedFiles_all encode files 0 tbl) as Ha.
    destruct (seedFiles encode files 0 tbl) as [[n | e] tbl'] eqn:E; simpl in *.
    + split; [eauto|]. split; [exact Hnd|]. split; [discriminate|].
      intros files' [= <-]. split.
      * destruct Ho as [[e He] | Hr]; [discriminate | now right].
      * exact Ha.
    + split; [eauto|]. split; [exact Hnd|]. split; [discriminate|].
      intros files' [= <-]. split; [now left|].
      intros Henc. destruct (Ha Henc) as [Hc _]. discriminate.
Qed.

Lemma seedFromFolder_result_witness :
  seedFromFolder (fun name => inr name) (inl (Error "ENOENT")) [] = (Ret 0%nat, []).
Proof.
  apply (proj1 (proj2 (proj2 (seedFromFolder_result (fun name => inr name)
                                (inl (Error "ENOENT")) []))) (Error "ENOENT")).
  reflexivity.
Defined.

(** ** Extensions and titles *)

Lemma extension_lastDot (s : str) :
  extension s = match lastDot s with
                | Some i => Some (skipn (S i) s)
                | None => None
                end.
Proof.
  induction s as [|c r IH]; [reflexivity|].
  change (extension (c :: r))
    with (match extension r with
          | Some e => Some e
          | None => if (c =? 46)%N then Some r else None
          end).
  change (lastDot (c :: r))
    with (match lastDot r with
          | Some i => Some (S i)
          | None => if (c =? 46)%N then Some O else None
          end).
  rewrite IH. destruct (lastDot r); [reflexivity|].
  destruct (c =? 46)%N; reflexivity.
Qed.

Lemma lastDot_skipn (s : str) i :
  lastDot s = Some i -> skipn i s = 46%N :: skipn (S i) s.
Proof.
  revert i. induction s as [|c r IH]; intros i; [discriminate|].
  change (lastDot (c :: r))
    with (match lastDot r with
          | Some i => Some (S i)
          | None => if (c =? 46)%N then Some O else None
          end).
  destruct (lastDot r) as [j|].
  - intros [= <-]. exact (IH j eq_refl).
  - destruct (c =? 46)%N eqn:Hc; [|discriminate].
    intros [= <-]. apply N.eqb_eq in Hc. now subst c.
Qed.

Lemma validExt_dot (x : str) :
  validExt (46%N :: x) = existsb (str_eqb x) alternatives.
Proof.
  unfold validExt, VALID_EXT, alternatives.
  change (lit ".png") with (46%N :: lit "png").
  change (lit ".jpg") with (46%N :: lit "jpg").
  change (lit ".jpeg") with (46%N :: lit "jpeg").
  change (lit ".webp") with (46%N :: lit "webp").
  change (lit ".gif") with (46%N :: lit "gif").
  change (lit ".avif") with (46%N :: lit "avif").
  cbn [existsb]. rewrite !(str_eqb_cons 46 46). cbn [N.eqb Pos.eqb andb].
  destruct (str_eqb x (lit "png")); destruct (str_eqb x (lit "jpg"));
    destruct (str_eqb x (lit "jpeg")); destruct (str_eqb x (lit "webp"));
    destruct (str_eqb x (lit "gif")); destruct (str_eqb x (lit "avif")); reflexivity.
Qed.

Lemma lowerExt_accepts (name : str) :
  validExt (lowerExt name)
  = allowedExtension name
    && negb (match lastDot name with Some O => true | _ => false end).
Proof.
  unfold lowerExt, extname, allowedExtension. rewrite extension_lastDot.
  destruct (lastDot name) as [[|i]|] eqn:Hl.
  - cbn [negb]. now rewrite andb_false_r.
  - cbn [negb]. rewrite andb_true_r.
    destruct (str_eqb name (lit "..")) eqn:Hd.
    + apply str_eqb_eq in Hd. subst name.
      vm_compute in Hl. injection Hl as <-. reflexivity.
    + rewrite (lastDot_skipn name Hl).
      change (map toLower (46%N :: skipn (S (S i)) name))
        with (46%N :: map toLower (skipn (S (S i)) name)).
      apply validExt_dot.
  - reflexivity.
Qed.

(** X19. The folder seeding and [GET /images] agree on extensions, but
    for one case: an entry is seeded exactly when it is a regular file,
    its extension is allowed by the listing, and its last period is not
    its first character.  So every entry the seeding takes is listed by
    [GET /images], while a file named [.png] is listed and not
    seeded. *)
Theorem seedable_listed :
  (forall f, seedable f
             = isFile f && allowedExtension (d_name f)
               && negb (match lastDot (d_name f) with Some O => true | _ => false end))
  /\ (forall folder files f,
        existsSync folder = true -> readdir folder = inr files ->
        In f files -> seedable f = true ->
        In (d_name f) (spec_listImages folder))
  /\ (allowedExtension (lit ".png") = true
      /\ seedable {| d_name := lit ".png"; isFile := true |} = false).
Proof.
  assert (H1 : forall f, seedable f
             = isFile f && allowedExtension (d_name f)
               && negb (match lastDot (d_name f) with Some O => true | _ => false end)).
  { intros f. unfold seedable. rewrite lowerExt_accepts. now rewrite andb_assoc. }
  split; [exact H1|]. split; [|split; reflexivity].
  intros folder files f He Hr Hin Hs. unfold spec_listImages. rewrite He, Hr.
  apply in_map, filter_In. split; [exact Hin|].
  rewrite H1 in Hs. apply andb_true_iff in Hs as [Hs _]. exact Hs.
Qed.

Lemma seedable_listed_witness :
  In (lit "a.png")
     (spec_listImages
        {| existsSync := true;
           readdir := inr [ {| d_name := lit "a.png"; isFile := true |} ] |}).
Proof.
  apply (proj1 (proj2 seedable_listed)
           {| existsSync := true;
              readdir := inr [ {| d_name := lit "a.png"; isFile := true |} ] |}
           [ {| d_name := lit "a.png"; isFile := true |} ]
           {| d_name := lit "a.png"; isFile := true |});
    try reflexivity.
  now left.
Defined.

Lemma endsWith_spec (s x : str) :
  endsWith s x = true <-> exists p, s = p ++ x.
Proof.
  induction s as [|c r IH].
  - simpl. rewrite orb_false_r, str_eqb_eq. split.
    + intros <-. now exists [].
    + intros [p Hp]. symmetry in Hp. apply app_eq_nil in Hp as [_ Hx]. now subst.
  - change (endsWith (c :: r) x) with (str_eqb (c :: r) x || endsWith r x).
    rewrite orb_true_iff, str_eqb_eq, IH. split.
    + intros [<- | [p ->]]; [now exists [] | now exists (c :: p)].
    + intros [[|d p] Hp]; [left; exact Hp | right].
      injection Hp as _ Hp. now exists p.
Qed.

Lemma same_length_suffix (p q x y : str) :
  p ++ x = q ++ y -> List.length x = List.length y -> x = y.
Proof.
  intros H Hl.
  assert (Hpq : List.length p = List.length q).
  { apply (f_equal (@List.length N)) in H. rewrite !length_app in H. lia. }
  revert q H Hpq. induction p as [|a p IH]; intros [|b q] H Hpq;
    simpl in *; try discriminate; [exact H|].
  injection H as _ H. apply (IH q H). lia.
Qed.

Lemma lastDot_lt (s : str) i : lastDot s = Some i -> (i < List.length s)%nat.
Proof.
  revert i. induction s as [|c r IH]; intros i; [discriminate|].
  change (lastDot (c :: r))
    with (match lastDot r with
          | Some i => Some (S i)
          | None => if (c =? 46)%N then Some O else None
          end).
  destruct (lastDot r) as [j|].
  - intros [= <-]. specialize (IH j eq_refl). simpl. lia.
  - destruct (c =? 46)%N; [|discriminate]. intros [= <-]. simpl. lia.
Qed.

(** X20. The title the folder seeding gives a file: when the extension
    is written in lower case the title is the name without it, with
    every run of underscores and hyphens turned into one space, and
    trimmed; when the extension has an upper-case letter it is not
    removed, and the title is made from the whole file name. *)
Theorem titleOf_extension (name : str) :
  validExt (lowerExt name) = true ->
  titleOf name
  = trim (collapseSeparators false
            (if str_eqb (extname name) (lowerExt name) then parsedName name
             else name)).
Proof.
  intros Hv. unfold titleOf. do 2 f_equal.
  assert (Hne : extname name <> []).
  { intros He. unfold lowerExt in Hv. rewrite He in Hv. discriminate Hv. }
  assert (Hlen : (List.length (extname name) < List.length name)%nat).
  { unfold extname in *. destruct (lastDot name) as [[|i]|] eqn:Hl;
      try (now elim Hne).
    destruct (str_eqb name (lit "..")); [now elim Hne|].
    rewrite length_skipn. apply lastDot_lt in Hl. lia. }
  assert (Hsuf : exists p, name = p ++ extname name).
  { unfold extname in *. destruct (lastDot name) as [[|i]|] eqn:Hl;
      try (now elim Hne).
    destruct (str_eqb name (lit "..")); [now elim Hne|].
    exists (firstn (S i) name). symmetry. apply firstn_skipn. }
  assert (Hll : List.length (lowerExt name) = List.length (extname name))
    by apply length_map.
  unfold basename.
  assert (Ht : truthy_str (lowerExt name) = true).
  { destruct (lowerExt name) eqn:E; [|reflexivity].
    simpl in Hll. destruct (extname name); [now elim Hne | discriminate]. }
  rewrite Ht. simpl andb.
  assert (Hle : (List.length (lowerExt name) <=? List.length name)%nat = true)
    by (apply Nat.leb_le; lia).
  rewrite Hle.
  assert (Hnn : str_eqb (lowerExt name) name = false).
  { apply str_eqb_neq. intros H. rewrite H in Hll. lia. }
  rewrite Hnn.
  destruct (str_eqb (extname name) (lowerExt name)) eqn:He.
  - apply str_eqb_eq in He. rewrite <- He.
    rewrite (proj2 (endsWith_spec name (extname name)) Hsuf).
    unfold parsedName. destruct (extname name); [now elim Hne | reflexivity].
  - destruct (endsWith name (lowerExt name)) eqn:Hend; [|reflexivity].
    apply endsWith_spec in Hend as [p Hp]. destruct Hsuf as [q Hq].
    apply str_eqb_neq in He. exfalso. apply He.
    rewrite Hq in Hp at 1. symmetry in Hll.
    exact (same_length_suffix _ _ _ _ Hp Hll).
Qed.

Lemma titleOf_extension_witness :
  titleOf (lit "mi_foto--1.png") = lit "mi foto 1"
  /\ titleOf (lit "C.JPG") = lit "C.JPG".
Proof.
  split.
  - rewrite (titleOf_extension (lit "mi_foto--1.png") eq_refl). reflexivity.
  - rewrite (titleOf_extension (lit "C.JPG") eq_refl). reflexivity.
Defined.

(** ** Seeding from the JSON file *)

Section JsonFacts.
Variable other : json -> exn + str.

Lemma text_plain (item : json) (key : str) (tbl : Table) :
  stringField item key = true ->
  text other item key tbl = (Ret (plainText item key), tbl).
Proof.
  unfold stringField, text, plainText.
  destruct (field item key) as [[| | |s| |]|]; try discriminate; reflexivity.
Qed.

Lemma text_frame (item : json) (key : str) (tbl : Table) :
  snd (text other item key tbl) = tbl.
Proof.
  unfold text. destruct (field item key) as [v|]; [|reflexivity].
  unfold bind, ofResult, throw, ret. now destruct (stringOf other v).
Qed.

Lemma seedItems_NoDup (items : list json) (count : nat) (tbl : Table) :
  NoDup (map title tbl) ->
  NoDup (map title (snd (seedItems other items count tbl))).
Proof.
  revert count tbl. induction items as [|item rest IH]; intros count tbl Hnd;
    [exact Hnd|].
  simpl. unfold bind at 1.
  pose proof (text_frame item (lit "title") tbl) as H1.
  destruct (text other item (lit "title") tbl) as [[t | e] tbl1]; simpl in H1;
    subst tbl1; [|exact Hnd].
  unfold bind at 1.
  pose proof (text_frame item (lit "url") tbl) as H2.
  destruct (text other item (lit "url") tbl) as [[u | e] tbl2]; simpl in H2;
    subst tbl2; [|exact Hnd].
  destruct (negb (truthy_str t) || negb (truthy_str u)); [now apply IH|].
  unfold bind, upsertImage, modify. apply IH. now apply upsertRow_NoDup.
Qed.

Lemma seedItems_step (item : json) (rest : list json) (count : nat) (tbl : Table) :
  plain item = true ->
  seedItems other (item :: rest) count tbl
  = if usable item
    then seedItems other rest (S count)
           (upsertRow (plainText item (lit "title")) (plainText item (lit "url")) tbl)
    else seedItems other rest count tbl.
Proof.
  intros Hp. unfold plain in Hp. apply andb_true_iff in Hp as [Ht Hu].
  simpl. unfold bind at 1. rewrite (text_plain item (lit "title") tbl Ht).
  unfold bind at 1. rewrite (text_plain item (lit "url") tbl Hu).
  unfold usable.
  destruct (truthy_str (plainText item (lit "title")));
    destruct (truthy_str (plainText item (lit "url"))); reflexivity.
Qed.

Lemma seedItems_keeps (items : list json) (count : nat) (tbl : Table) (t : str) :
  forallb plain items = true ->
  lookupUrl t tbl <> None ->
  lookupUrl t (snd (seedItems other items count tbl)) <> None.
Proof.
  revert count tbl. induction items as [|item rest IH]; intros count tbl Hp H;
    [exact H|].
  simpl in Hp. apply andb_true_iff in Hp as [Hi Hp].
  rewrite (seedItems_step item rest count tbl Hi).
  destruct (usable item); [|now apply IH].
  apply IH; [exact Hp|]. now apply upsertRow_keeps.
Qed.

Lemma seedItems_plain (items : list json) (count : nat) (tbl : Table) :
  forallb plain items = true ->
  fst (seedItems other items count tbl)
  = Ret (count + List.length (filter usable items))%nat
  /\ (forall item, In item items -> usable item = true ->
        lookupUrl (plainText item (lit "title"))
                  (snd (seedItems other items count tbl)) <> None).
Proof.
  revert count tbl. induction items as [|item rest IH]; intros count tbl Hp.
  - split; [simpl; f_equal; lia | intros item []].
  - simpl in Hp. apply andb_true_iff in Hp as [Hi Hp].
    rewrite (seedItems_step item rest count tbl Hi). simpl filter.
    destruct (usable item) eqn:Hu.
    + destruct (IH (S count)
                   (upsertRow (plainText item (lit "title"))
                              (plainText item (lit "url")) tbl) Hp) as [Hc Hl].
      split; [rewrite Hc; simpl; f_equal; lia|].
      intros x [<- | Hx] Hux; [|now apply Hl].
      apply seedItems_keeps; [exact Hp|].
      rewrite upsertRow_lookup_same. discriminate.
    + destruct (IH count tbl Hp) as [Hc Hl]. split; [exact Hc|].
      intros x [<- | Hx] Hux; [congruence | now apply Hl].
Qed.

End JsonFacts.

Lemma seedFromJson_returns (other : json -> exn + str)
      (seedFile : exn + json) (tbl : Table) :
  exists n, fst (seedFromJson other seedFile tbl) = Ret n.
Proof.
  unfold seedFromJson, tryCatch, bind, ofResult, throw, ret.
  destruct seedFile as [e | parsed]; simpl; [eauto|].
  destruct parsed as [| b | n | s | items | fields]; simpl; eauto.
  destruct (seedItems other items 0 tbl) as [[n | e] tbl']; simpl; eauto.
Qed.

(** X21. The JSON seeding never raises and keeps the titles of the
    table distinct.  It reports 0 and writes nothing when the file
    cannot be read or parsed, or holds anything but an array.  On an
    array whose items have string (or no) title and URL, it reports the
    number of items whose title and URL are both non-empty once
    trimmed, skips the others, and the title of every item counted is
    in the table afterwards. *)
Theorem seedFromJson_result (other : json -> exn + str)
        (seedFile : exn + json) (tbl : Table) :
  (exists n, fst (seedFromJson other seedFile tbl) = Ret n)
  /\ (NoDup (map title tbl) ->
      NoDup (map title (snd (seedFromJson other seedFile tbl))))
  /\ ((forall items, seedFile <> inr (JArr items)) ->
      seedFromJson other seedFile tbl = (Ret 0%nat, tbl))
  /\ (forall items,
        seedFile = inr (JArr items) -> forallb plain items = true ->
        fst (seedFromJson other seedFile tbl)
        = Ret (List.length (filter usable items))
        /\ (forall item, In item items -> usable item = true ->
              lookupUrl (plainText item (lit "title"))
                        (snd (seedFromJson other seedFile tbl)) <> None)).
Proof.
  unfold seedFromJson, tryCatch, bind, ofResult, throw, ret.
  destruct seedFile as [e | parsed]; simpl.
  - split; [eauto|]. split; [auto|]. split; [reflexivity|]. discriminate.
  - destruct parsed as [| b | n | s | items | fields]; simpl;
      try (split; [eauto|]; split; [auto|]; split; [reflexivity|]; discriminate).
    pose proof (seedItems_NoDup other items 0 tbl) as Hnd.
    pose proof (seedItems_plain other items 0 tbl) as Hp.
    destruct (seedItems other items 0 tbl) as [[n | e] tbl'] eqn:E; simpl in *.
    + split; [eauto|]. split; [exact Hnd|].
      split; [intros H; now elim (H items)|].
      intros items' [= <-]. exact Hp.
    + split; [eauto|]. split; [exact Hnd|].
      split; [intros H; now elim (H items)|].
      intros items' [= <-] Hpl. destruct (Hp Hpl) as [Hc _]. discriminate.
Qed.

Lemma seedFromJson_result_witness :
  seedFromJson (fun _ => inr []) (inr (JObj [])) [] = (Ret 0%nat, []).
Proof.
  apply (proj1 (proj2 (proj2 (seedFromJson_result (fun _ => inr [])
                                (inr (JObj [])) [])))).
  discriminate.
Defined.

Lemma main_run (other : json -> exn + str) (encode : str -> exn + str)
      (w : Script) (seedFile : exn + json) (readdir : exn + list Dirent) (s : Run) :
  mkdir w = inr tt -> openDb w = inr tt -> schemaExec w = inr tt ->
  main other encode w seedFile readdir s
  = let after (n : nat) (tbl : Table) :=
        match countRows w with
        | inl e => (Throw e, {| table := tbl; reported := reported s |})
        | inr _ =>
            match closeDb w with
            | inl e =>
                (Throw e, {| table := tbl;
                             reported := Some (n, List.length tbl) |})
            | inr _ =>
                (Ret tt, {| table := tbl;
                            reported := Some (n, List.length tbl) |})
            end
        end in
    match seedFromJson other seedFile (table s) with
    | (Ret O, t1) =>
        match seedFromFolder encode readdir t1 with
        | (Ret n, t2) => after n t2
        | (Throw e, t2) => (Throw e, {| table := t2; reported := reported s |})
        end
    | (Ret (S k), t1) => after (S k) t1
    | (Throw e, t1) => (Throw e, {| table := t1; reported := reported s |})
    end.
Proof.
  intros Hm Ho Hs.
  unfold main, ensureSchema, report, onTable, bind, modify, ofResult, throw, ret.
  rewrite Hm, Ho, Hs. simpl.
  destruct (seedFromJson other seedFile (table s)) as [[[|k] | e] t1]; simpl.
  - destruct (seedFromFolder encode readdir t1) as [[n | e] t2]; simpl;
      [|reflexivity].
    destruct (countRows w) as [e | []]; simpl; [reflexivity|].
    destruct (closeDb w) as [e | []]; reflexivity.
  - destruct (countRows w) as [e | []]; simpl; [reflexivity|].
    destruct (closeDb w) as [e | []]; reflexivity.
  - reflexivity.
Qed.

(** X22. [main] fails, having seeded nothing, when the data folder
    cannot be made, the database cannot be opened or the schema cannot
    be ensured.  Past these, the seeding itself never fails and the
    images folder is a fallback only: when the JSON seeding reports a
    count above 0, that count stands, the table is the one the JSON
    seeding left and the folder is not read; when it reports 0, the
    count and the table are those of the folder seeding run after it.
    Then [main] logs that count with the number of rows and ends
    normally, unless the count query fails (nothing is logged) or the
    closing fails (after the log); the seeds written stay written. *)
Theorem main_sources (other : json -> exn + str) (encode : str -> exn + str)
        (w : Script) (seedFile : exn + json)
        (readdir : exn + list Dirent) (s : Run) :
  (forall e, mkdir w = inl e ->
     main other encode w seedFile readdir s = (Throw e, s))
  /\ (forall e, mkdir w = inr tt -> openDb w = inl e ->
        main other encode w seedFile readdir s = (Throw e, s))
  /\ (forall e, mkdir w = inr tt -> openDb w = inr tt -> schemaExec w = inl e ->
        main other encode w seedFile readdir s = (Throw e, s))
  /\ (mkdir w = inr tt -> openDb w = inr tt -> schemaExec w = inr tt ->
      exists n tbl',
        (forall k, fst (seedFromJson other seedFile (table s)) = Ret (S k) ->
           n = S k /\ tbl' = snd (seedFromJson other seedFile (table s)))
        /\ (fst (seedFromJson other seedFile (table s)) = Ret 0%nat ->
            seedFromFolder encode readdir (snd (seedFromJson other seedFile (table s)))
            = (Ret n, tbl'))
        /\ (forall e, countRows w = inl e ->
              main other encode w seedFile readdir s
              = (Throw e, {| table := tbl'; reported := reported s |}))
        /\ (forall e, countRows w = inr tt -> closeDb w = inl e ->
              main other encode w seedFile readdir s
              = (Throw e, {| table := tbl';
                             reported := Some (n, List.length tbl') |}))
        /\ (countRows w = inr tt -> closeDb w = inr tt ->
            main other encode w seedFile readdir s
            = (Ret tt, {| table := tbl';
                          reported := Some (n, List.length tbl') |}))).
Proof.
  split; [|split; [|split]].
  - intros e He. unfold main, bind, ofResult, throw. now rewrite He.
  - intros e Hm He. unfold main, bind, ofResult, throw, ret. now rewrite Hm, He.
  - intros e Hm Ho He.
    unfold main, ensureSchema, bind, ofResult, throw, ret. now rewrite Hm, Ho, He.
  - intros Hm Ho Hs. rewrite (main_run other encode w seedFile readdir s Hm Ho Hs).
    destruct (seedFromJson_returns other seedFile (table s)) as [n1 H1].
    destruct (seedFromJson other seedFile (table s)) as [o1 t1]. simpl in H1. subst o1.
    simpl fst. simpl snd. destruct n1 as [|k].
    + destruct (seedFromFolder_returns encode readdir t1) as [n2 H2].
      destruct (seedFromFolder encode readdir t1) as [o2 t2]. simpl in H2. subst o2.
      exists n2, t2.
      split; [intros k Hk; discriminate Hk|]. split; [reflexivity|].
      cbv zeta. split; [intros e ->; reflexivity|].
      split; [intros e -> ->; reflexivity | intros -> ->; reflexivity].
    + exists (S k), t1.
      split; [intros j [= <-]; auto|]. split; [intros H; discriminate H|].
      cbv zeta. split; [intros e ->; reflexivity|].
      split; [intros e -> ->; reflexivity | intros -> ->; reflexivity].
Qed.

Lemma main_sources_witness :
  exists n tbl',
    main (fun _ => inr []) (fun name => inr name) healthyScript
         (inr (JArr [JObj [(lit "title", JStr (lit " Latte "));
                           (lit "url", JStr (lit "/images/latte.png"))];
                     JObj [(lit "title", JStr (lit "no url"))]]))
         (inl (Error "ENOENT")) {| table := []; reported := None |}
    = (Ret tt, {| table := tbl'; reported := Some (n, List.length tbl') |})
    /\ n = 1%nat.
Proof.
  destruct (proj2 (proj2 (proj2
             (main_sources (fun _ => inr []) (fun name => inr name) healthyScript
                (inr (JArr [JObj [(lit "title", JStr (lit " Latte "));
                                  (lit "url", JStr (lit "/images/latte.png"))];
                            JObj [(lit "title", JStr (lit "no url"))]]))
                (inl (Error "ENOENT")) {| table := []; reported := None |})))
             eq_refl eq_refl eq_refl)
    as [n [tbl' [H [_ [_ [_ E]]]]]].
  exists n, tbl'. split; [apply E; reflexivity|].
  apply (H 0%nat). reflexivity.
Defined.

End SeedFacts.

(* ===================================================================== *)
(** * The debug route, and prices once more *)
(* ===================================================================== *)

Module DebugFacts.
Import Js Sheet Eff Products Debug JsFacts SheetFacts ProductsFacts.

(** X23. [GET /products/debug] never raises and leaves the cache and the
    heap alone.  It answers 500 with the error exactly when the
    credentials, the reading of the sheet titles or the request for the
    values fail, in that order; when all three succeed it answers 200
    with the sheet titles, the number of rows, and as sample the first
    three rows (all of them when there are fewer; none, with a count of
    0, when [values] is missing). *)
Theorem debugRoute_answers env w sheetTitles s :
  (heap (snd (debugRoute env w sheetTitles s)) = heap s
   /\ productsCache (snd (debugRoute env w sheetTitles s)) = productsCache s)
  /\ (forall e,
        fst (getSheetsClient env w s) = Throw e ->
        fst (debugRoute env w sheetTitles s)
        = Ret {| status := 500; cacheControl := Some "no-store"%string;
                 body := DebugFailed e |})
  /\ (forall a e,
        fst (getSheetsClient env w s) = Ret a -> sheetTitles = inl e ->
        fst (debugRoute env w sheetTitles s)
        = Ret {| status := 500; cacheControl := Some "no-store"%string;
                 body := DebugFailed e |})
  /\ (forall a titles e,
        fst (getSheetsClient env w s) = Ret a -> sheetTitles = inr titles ->
        valuesGet w = inl e ->
        fst (debugRoute env w sheetTitles s)
        = Ret {| status := 500; cacheControl := Some "no-store"%string;
                 body := DebugFailed e |})
  /\ (forall a titles rows,
        fst (getSheetsClient env w s) = Ret a -> sheetTitles = inr titles ->
        valuesGet w = inr (Some rows) ->
        fst (debugRoute env w sheetTitles s)
        = Ret {| status := 200; cacheControl := Some "no-store"%string;
                 body := DebugOk (SHEET_ID env) (SHEET_RANGE env) titles
                                 (List.length rows) (firstn 3 rows) |}
        /\ List.length (firstn 3 rows) = Nat.min 3 (List.length rows))
  /\ (forall a titles,
        fst (getSheetsClient env w s) = Ret a -> sheetTitles = inr titles ->
        valuesGet w = inr None ->
        fst (debugRoute env w sheetTitles s)
        = Ret {| status := 200; cacheControl := Some "no-store"%string;
                 body := DebugOk (SHEET_ID env) (SHEET_RANGE env) titles 0 [] |}).
Proof.
  unfold debugRoute, tryCatch, bind, ofResult, throw, ret.
  pose proof (getSheetsClient_frame env w s) as [Hh Hc].
  destruct (getSheetsClient env w s) as [[a | e] s1]; simpl in *.
  - split.
    { destruct sheetTitles as [e | titles]; simpl; [auto|].
      destruct (valuesGet w) as [e | values]; simpl; auto. }
    split; [intros e H; discriminate H|].
    split; [intros a0 e _ ->; reflexivity|].
    split; [intros a0 titles e _ -> ->; reflexivity|].
    split.
    + intros a0 titles rows _ -> ->. split; [reflexivity|].
      exact (length_firstn 3 rows).
    + intros a0 titles _ -> ->. reflexivity.
  - split; [auto|].
    split; [intros e0 [= <-]; reflexivity|].
    split; [intros a e0 H; discriminate H|].
    split; [intros a titles e0 H; discriminate H|].
    split; [intros a titles rows H; discriminate H | intros a titles H; discriminate H].
Qed.

Lemma debugRoute_answers_witness :
  fst (debugRoute sampleEnv Catalog.upWorld (inr [lit "Products"]) initialServer)
  = Ret {| status := 200; cacheControl := Some "no-store"%string;
           body := DebugOk (SHEET_ID sampleEnv) (SHEET_RANGE sampleEnv)
                           [lit "Products"] (List.length sampleRows)
                           (firstn 3 sampleRows) |}.
Proof.
  apply (proj1 (proj2 (proj2 (proj2 (proj2
           (debugRoute_answers sampleEnv Catalog.upWorld (inr [lit "Products"])
                               initialServer)))))
           {| private_key := Some (lit "k"); client_email := None |}
           [lit "Products"] sampleRows); reflexivity.
Defined.

(** X24. The price of a string depends only on its digits, periods,
    commas and minus signs, in their order: two strings that agree once
    every other character is removed get the same price.  So the letter
    of an exponent is dropped like any other: "1e3" is priced 13. *)
Theorem price_ignores_other_characters (s1 s2 : str) :
  filter keptInPrice s1 = filter keptInPrice s2 ->
  priceOf (CStr s1) = priceOf (CStr s2).
Proof.
  intros H. unfold priceOf, cleaned.
  now rewrite !(trim_filter keptInPrice _ white_not_kept), H.
Qed.

Lemma price_ignores_other_characters_witness :
  priceOf (CStr (lit "1e3")) = priceOf (CStr (lit "13"))
  /\ priceOf (CStr (lit "13")) = Fin (13 # 1).
Proof.
  split; [|reflexivity].
  apply (price_ignores_other_characters (lit "1e3") (lit "13")). reflexivity.
Defined.

End DebugFacts.
